(** * ibm_svc_info: the information-gathering module of ibm.spectrum_virtualize

    A shallow embedding of [plugins/modules/ibm_svc_info.py] and the
    properties of its category dispatcher.

    The module is effectful Python: it calls a REST client, writes log
    entries and ends by [exit_json] or [fail_json], both of which leave the
    process through [sys.exit].  The embedding threads an explicit state (the
    REST session and the chronological list of observable calls) through a
    small monad with two kinds of abrupt termination: a Python [Exception]
    (caught by [except Exception]) and [SystemExit] (not caught by it). *)

From Stdlib Require Import List Ascii String Bool Arith ZArith Lia.
Import ListNotations.
Open Scope string_scope.
Open Scope list_scope.

Set Implicit Arguments.

(** ** Python values that reach the log and the framework *)

#[warnings="-register-all"]
Inductive pyval : Type :=
| PyStr (s : string)
| PyInt (n : Z)
| PyTuple (vs : list pyval).

(** [x in l] for a list of strings. *)
Definition py_in (x : string) (l : list string) : bool :=
  existsb (String.eqb x) l.

(** [module.params]: the options of DOCUMENTATION and of [argument_spec]. *)
Record params : Type := mkParams {
  name : string;
  state : string;
  clustername : string;
  domain : option string;
  username : string;
  password : string;
  log_path : option string;
  validate_certs : bool;
  gather_subset : list string
}.

Definition set_gather_subset (gs : list string) (p : params) : params :=
  mkParams (name p) (state p) (clustername p) (domain p) (username p)
           (password p) (log_path p) (validate_certs p) gs.

Definition set_name_state (n s : string) (p : params) : params :=
  mkParams n s (clustername p) (domain p) (username p)
           (password p) (log_path p) (validate_certs p) (gather_subset p).

(** ** Concrete REST clients, to run the module on

    A session counts the queries it has served.  [quiet_api] answers every
    command with one record; [broken_api] does the same but raises on
    [lsnode]. *)

Definition quiet_connect (cl : string) (dom : option string) (user pw : string)
           (vc : bool) (lp : option string) : nat := 0.

Definition quiet_api (s : nat) (cmd : string) : (string + list nat) * nat :=
  (inr [String.length cmd + s], S s).

Definition broken_api (s : nat) (cmd : string) : (string + list nat) * nat :=
  if String.eqb cmd "lsnode"
  then (inl "CMMVC7205E The command failed", S s)
  else (inr [String.length cmd + s], S s).

Definition plain_traceback (e : string) : string :=
  "Traceback (most recent call last): " ++ e.

(** What the sample framework says of parameters it rejects. *)
Definition plain_invalid (p : params) : string :=
  "value of state or gather_subset is not among the choices; state was: " ++
  state p.

Definition sample_params (gs : list string) : params :=
  mkParams "gather" "info" "cluster1.example" None "superuser" "passw0rd"
           (Some "/tmp/ansible.log") false gs.

Section Module.

(** A record returned by the storage system: an opaque mapping. *)
Variable record : Type.

(** The REST client of [module_utils/ibm_svc_utils.py] is a collaborator
    of this file.  [rest] is its session state, [IBMSVCRestApi] its
    constructor (from clustername, domain, username, password,
    validate_certs and log_path), and [svc_obj_info] its read query, called
    here with [cmdopts=None, cmdargs=None] throughout: from a session and a
    command name it either raises (left, the [str] of the exception) or
    returns a list of records (right), and leaves a new session.  This is
    the interface the specification gives for it, a read command from a
    command name to a list of records; a client that returns something
    else, or that ends the process itself, is outside it.  The module
    object is passed to the constructor too (for the client's own error
    reports); the session is taken not to depend on it. *)
Variable rest : Type.
Variable IBMSVCRestApi :
  string -> option string -> string -> string -> bool -> option string -> rest.
Variable svc_obj_info : rest -> string -> (string + list record) * rest.

(** [traceback.format_exc()] for the exception being handled. *)
Variable format_exc : string -> string.

(** ** Observable calls *)

Definition kwargs : Type := list (string * list record).

Inductive event : Type :=
| EvQuery (cmd : string) (out : string + list record)
| EvLogInfo (fmt : string) (args : list pyval)
| EvLogDebug (fmt : string) (args : list pyval)
| EvLogError (msg : pyval)
| EvExitJson (kw : kwargs)
| EvFailJson (msg : pyval).

Record world : Type := mkWorld {
  session : rest;
  trace : list event
}.

Definition emit (e : event) (w : world) : world :=
  mkWorld (session w) (trace w ++ [e]).

(** ** The monad *)

Inductive result (A : Type) : Type :=
| Ret (a : A)
| Raise (e : string)
| SystemExit (rc : nat).
Arguments Raise {A} e.
Arguments SystemExit {A} rc.

Definition M (A : Type) : Type := world -> result A * world.

Definition ret {A} (a : A) : M A := fun w => (Ret a, w).

Definition bind {A B} (m : M A) (k : A -> M B) : M B :=
  fun w =>
    match m w with
    | (Ret a, w') => k a w'
    | (Raise e, w') => (Raise e, w')
    | (SystemExit rc, w') => (SystemExit rc, w')
    end.

Notation "x <- m ;; k" := (bind m (fun x => k))
  (at level 100, m at next level, right associativity).
Notation "m ;;; k" := (bind m (fun _ => k))
  (at level 100, right associativity).

(** [try: body except Exception as e: handler]: [SystemExit] is a
    [BaseException] and passes through. *)
Definition try_except {A} (body : M A) (handler : string -> M A) : M A :=
  fun w =>
    match body w with
    | (Raise e, w') => handler e w'
    | r => r
    end.

(** ** Collaborators *)

Definition restapi_svc_obj_info (cmd : string) : M (list record) :=
  fun w =>
    let (out, s') := svc_obj_info (session w) cmd in
    let w' := emit (EvQuery cmd out) (mkWorld s' (trace w)) in
    match out with
    | inl e => (Raise e, w')
    | inr recs => (Ret recs, w')
    end.

Definition log_info (fmt : string) (args : list pyval) : M unit :=
  fun w => (Ret tt, emit (EvLogInfo fmt args) w).

Definition log_debug (fmt : string) (args : list pyval) : M unit :=
  fun w => (Ret tt, emit (EvLogDebug fmt args) w).

Definition log_error (msg : pyval) : M unit :=
  fun w => (Ret tt, emit (EvLogError msg) w).

(** [AnsibleModule.exit_json] reports its keyword arguments and
    calls [sys.exit(0)]; [AnsibleModule.fail_json(msg=...)] reports the
    message and calls [sys.exit(1)].  Neither returns. *)
Definition exit_json {A} (kw : kwargs) : M A :=
  fun w => (SystemExit 0, emit (EvExitJson kw) w).

Definition fail_json {A} (msg : pyval) : M A :=
  fun w => (SystemExit 1, emit (EvFailJson msg) w).

Definition len {A} (l : list A) : Z := Z.of_nat (List.length l).

(** ** class IBMSVCGatherInfo *)

Record IBMSVCGatherInfo : Type := mkSelf {
  module_params : params;
  self_name : string
}.

(** [__init__], once [AnsibleModule] has accepted the parameters: the
    object, and the world it starts in (the REST client built from the
    connection parameters, nothing observed yet).  The check of the
    parameters against [argument_spec], which comes first and may end the
    process, is [accepted] below, and [invoke] is the module with it. *)
Definition init (p : params) : IBMSVCGatherInfo :=
  mkSelf p (name p).

Definition init_world (p : params) : world :=
  mkWorld (IBMSVCRestApi (clustername p) (domain p) (username p)
                         (password p) (validate_certs p) (log_path p))
          [].

Definition get_volumes_list (self : IBMSVCGatherInfo) : M (list record) :=
  try_except
    (vols <- restapi_svc_obj_info "lsvdisk" ;;
     log_info "Successfully listed %d volumes from array %s"
              [PyInt (len vols); PyStr (clustername (module_params self))] ;;;
     ret vols)
    (fun e =>
       let msg := PyTuple [PyStr "Get Volumes from array %s failed with error %s ";
                           PyStr (clustername (module_params self)); PyStr e] in
       log_error msg ;;;
       fail_json msg).

Definition get_pools_list (self : IBMSVCGatherInfo) : M (list record) :=
  try_except
    (pools <- restapi_svc_obj_info "lsmdiskgrp" ;;
     log_info "Successfully listed %d pools from array %s"
              [PyInt (len pools); PyStr (clustername (module_params self))] ;;;
     ret pools)
    (fun e =>
       let msg := PyTuple [PyStr "Get Pools from array %s failed with error %s ";
                           PyStr (clustername (module_params self)); PyStr e] in
       log_error msg ;;;
       fail_json msg).

Definition get_nodes_list (self : IBMSVCGatherInfo) : M (list record) :=
  try_except
    (nodes <- restapi_svc_obj_info "lsnode" ;;
     log_info "Successfully listed %d pools from array %s"
              [PyInt (len nodes); PyStr (clustername (module_params self))] ;;;
     ret nodes)
    (fun e =>
       let msg := PyTuple [PyStr "Get Nodes from array %s failed with error %s ";
                           PyStr (clustername (module_params self)); PyStr e] in
       log_error msg ;;;
       fail_json msg).

Definition get_hosts_list (self : IBMSVCGatherInfo) : M (list record) :=
  try_except
    (hosts <- restapi_svc_obj_info "lshost" ;;
     log_info "Successfully listed %d hosts from array %s"
              [PyInt (len hosts); PyStr (clustername (module_params self))] ;;;
     ret hosts)
    (fun e =>
       let msg := PyTuple [PyStr "Get Hosts from array %s failed with error %s ";
                           PyStr (clustername (module_params self)); PyStr e] in
       log_error msg ;;;
       fail_json msg).

Definition get_iogroups_list (self : IBMSVCGatherInfo) : M (list record) :=
  try_except
    (iogrps <- restapi_svc_obj_info "lsiogrp" ;;
     log_info "Successfully listed %d hosts from array %s"
              [PyInt (len iogrps); PyStr (clustername (module_params self))] ;;;
     ret iogrps)
    (fun e =>
       let msg := PyTuple [PyStr "Get IO Groups from array %s failed with error %s ";
                           PyStr (clustername (module_params self)); PyStr e] in
       log_error msg ;;;
       fail_json msg).

Definition get_host_clusters_list (self : IBMSVCGatherInfo) : M (list record) :=
  try_except
    (hcs <- restapi_svc_obj_info "lshostcluster" ;;
     log_info "Successfully listed %d host clusters from array %s"
              [PyInt (len hcs); PyStr (clustername (module_params self))] ;;;
     ret hcs)
    (fun e =>
       let msg := PyTuple [PyStr "Get Host Cluster from array %s failed with error %s ";
                           PyStr (clustername (module_params self)); PyStr e] in
       log_error msg ;;;
       fail_json msg).

Definition get_fc_connectivity_list (self : IBMSVCGatherInfo) : M (list record) :=
  try_except
    (fc <- restapi_svc_obj_info "lsfabric" ;;
     log_info "Successfully listed %d fc connectivity from array %s"
              [PyInt (len fc); PyStr (clustername (module_params self))] ;;;
     ret fc)
    (fun e =>
       let msg := PyTuple [PyStr "Get FC Connectivity from array %s failed with error %s ";
                           PyStr (clustername (module_params self)); PyStr e] in
       log_error msg ;;;
       fail_json msg).

Definition get_fc_ports_list (self : IBMSVCGatherInfo) : M (list record) :=
  try_except
    (fcports <- restapi_svc_obj_info "lsportfc" ;;
     log_info "Successfully listed %d fc ports from array %s"
              [PyInt (len fcports); PyStr (clustername (module_params self))] ;;;
     ret fcports)
    (fun e =>
       let msg := PyTuple [PyStr "Get fc ports from array %s failed with error %s ";
                           PyStr (clustername (module_params self)); PyStr e] in
       log_error msg ;;;
       fail_json msg).

Definition get_target_port_fc_list (self : IBMSVCGatherInfo) : M (list record) :=
  try_except
    (targetportfc <- restapi_svc_obj_info "lstargetportfc" ;;
     log_info "Successfully listed %d target port fc from array %s"
              [PyInt (len targetportfc); PyStr (clustername (module_params self))] ;;;
     ret targetportfc)
    (fun e =>
       let msg := PyTuple [PyStr "Get target port fc from array %s failed with error %s ";
                           PyStr (clustername (module_params self)); PyStr e] in
       log_error msg ;;;
       fail_json msg).

Definition get_iscsi_ports_list (self : IBMSVCGatherInfo) : M (list record) :=
  try_except
    (ipports <- restapi_svc_obj_info "lsportip" ;;
     log_info "Successfully listed %d iscsi ports from array %s"
              [PyInt (len ipports); PyStr (clustername (module_params self))] ;;;
     ret ipports)
    (fun e =>
       let msg := PyTuple [PyStr "Get iscsi ports from array %s failed with error %s ";
                           PyStr (clustername (module_params self)); PyStr e] in
       log_error msg ;;;
       fail_json msg).

Definition get_fc_map_list (self : IBMSVCGatherInfo) : M (list record) :=
  try_except
    (fcmaps <- restapi_svc_obj_info "lsfcmap" ;;
     log_info "Successfully listed %d fc maps from array %s"
              [PyInt (len fcmaps); PyStr (clustername (module_params self))] ;;;
     ret fcmaps)
    (fun e =>
       let msg := PyTuple [PyStr "Get fc maps from array %s failed with error %s ";
                           PyStr (clustername (module_params self)); PyStr e] in
       log_error msg ;;;
       fail_json msg).

Definition get_array_list (self : IBMSVCGatherInfo) : M (list record) :=
  try_except
    (array <- restapi_svc_obj_info "lsarray" ;;
     log_info "Successfully listed %d array info from array %s"
              [PyInt (len array); PyStr (clustername (module_params self))] ;;;
     ret array)
    (fun e =>
       let msg := PyTuple [PyStr "Get Array info from array %s failed with error %s ";
                           PyStr (clustername (module_params self)); PyStr e] in
       log_error msg ;;;
       fail_json msg).

Definition get_system_list (self : IBMSVCGatherInfo) : M (list record) :=
  try_except
    (system <- restapi_svc_obj_info "lssystem" ;;
     log_info "Successfully listed %d system info from array %s"
              [PyInt (len system); PyStr (clustername (module_params self))] ;;;
     ret system)
    (fun e =>
       let msg := PyTuple [PyStr "Get System info from array %s failed with error %s ";
                           PyStr (clustername (module_params self)); PyStr e] in
       log_error msg ;;;
       fail_json msg).

Definition get_fcconsistgrp_list (self : IBMSVCGatherInfo) : M (list record) :=
  try_except
    (fcconsistgrp <- restapi_svc_obj_info "lsfcconsistgrp" ;;
     log_info "Successfully listed %d fcconsistgrp info from array %s"
              [PyInt (len fcconsistgrp); PyStr (clustername (module_params self))] ;;;
     ret fcconsistgrp)
    (fun e =>
       let msg := PyTuple [PyStr "Get fcconsistgrp info from array %s failed with error %s ";
                           PyStr (clustername (module_params self)); PyStr e] in
       log_error msg ;;;
       fail_json msg).

Definition get_vdiskcopy_list (self : IBMSVCGatherInfo) : M (list record) :=
  try_except
    (vdiskcopy <- restapi_svc_obj_info "lsvdiskcopy" ;;
     log_info "Successfully listed %d vdiskcopy info from array %s"
              [PyInt (len vdiskcopy); PyStr (clustername (module_params self))] ;;;
     ret vdiskcopy)
    (fun e =>
       let msg := PyTuple [PyStr "Get vdiskcopy info from array %s failed with error %s ";
                           PyStr (clustername (module_params self)); PyStr e] in
       log_error msg ;;;
       fail_json msg).

(** The list that replaces an empty subset or one that holds 'all'. *)
Definition all_subset : list string :=
  ["vol"; "pool"; "node"; "iog"; "host"; "hc"; "fc";
   "fcport"; "iscsiport"; "fcmap"; "fcconsistgrp";
   "vdiskcopy"; "targetportfc"; "array"; "system"].

Definition apply (self : IBMSVCGatherInfo) : M unit :=
  let subset := gather_subset (module_params self) in
  subset <- (if Nat.eqb (List.length subset) 0 || py_in "all" subset
             then log_info "The default value for gather_subset is all" [] ;;;
                  ret all_subset
             else ret subset) ;;
  vol <- (if py_in "vol" subset then get_volumes_list self else ret []) ;;
  pool <- (if py_in "pool" subset then get_pools_list self else ret []) ;;
  node <- (if py_in "node" subset then get_nodes_list self else ret []) ;;
  iog <- (if py_in "iog" subset then get_iogroups_list self else ret []) ;;
  host <- (if py_in "host" subset then get_hosts_list self else ret []) ;;
  hc <- (if py_in "hc" subset then get_host_clusters_list self else ret []) ;;
  fc <- (if py_in "fc" subset then get_fc_connectivity_list self else ret []) ;;
  targetportfc <- (if py_in "targetportfc" subset
                   then get_target_port_fc_list self else ret []) ;;
  fcport <- (if py_in "fcport" subset then get_fc_ports_list self else ret []) ;;
  iscsiport <- (if py_in "iscsiport" subset
                then get_iscsi_ports_list self else ret []) ;;
  fcmap <- (if py_in "fcmap" subset then get_fc_map_list self else ret []) ;;
  fcconsistgrp <- (if py_in "fcconsistgrp" subset
                   then get_fcconsistgrp_list self else ret []) ;;
  vdiskcopy <- (if py_in "vdiskcopy" subset
                then get_vdiskcopy_list self else ret []) ;;
  array <- (if py_in "array" subset then get_array_list self else ret []) ;;
  system <- (if py_in "system" subset then get_system_list self else ret []) ;;
  exit_json
    [("Volumes", vol);
     ("Pools", pool);
     ("Nodes", node);
     ("IOGroup", iog);
     ("Hosts", host);
     ("HostClusters", hc);
     ("FCConnectivity", fc);
     ("FCConsistgrp", fcconsistgrp);
     ("VdiskCopy", vdiskcopy);
     ("FCPorts", fcport);
     ("TargetPortFC", targetportfc);
     ("iSCSIPorts", iscsiport);
     ("FCMaps", fcmap);
     ("Array", array);
     ("System", system)].

Definition main (p : params) : M unit :=
  let v := init p in
  try_except
    (apply v)
    (fun e =>
       log_debug ("Exception in apply(): " ++ String "010"%char "%s")%string
                 [PyStr (format_exc e)] ;;;
       fail_json (PyStr ("Module failed. Error [" ++ e ++ "].")%string)).

(** One invocation of the module. *)
Definition run (p : params) : result unit * world :=
  main p (init_world p).

(** ** The dispatch table of [apply]

    The fifteen branches of [apply] have one shape.  The table below names
    them: for each category its label in [gather_subset], the method that
    [apply] calls for it, the command that method passes to the REST
    client, its two message templates, and the keyword under which
    [exit_json] receives its result.  [apply_dispatch] proves that [apply]
    is the iteration of the table in the order of its [if] statements. *)

Inductive category : Type :=
| Vol | Pool | Node | Iog | Host | Hc | Fc | Targetportfc | Fcport
| Iscsiport | Fcmap | Fcconsistgrp | Vdiskcopy | Array | System.

Definition category_eq_dec (a b : category) : {a = b} + {a <> b}.
Proof. decide equality. Defined.

Definition category_eqb (a b : category) : bool :=
  if category_eq_dec a b then true else false.

(** The categories in the order in which [apply] tests them. *)
Definition dispatch_order : list category :=
  [Vol; Pool; Node; Iog; Host; Hc; Fc; Targetportfc; Fcport;
   Iscsiport; Fcmap; Fcconsistgrp; Vdiskcopy; Array; System].

Definition label (c : category) : string :=
  match c with
  | Vol => "vol" | Pool => "pool" | Node => "node" | Iog => "iog"
  | Host => "host" | Hc => "hc" | Fc => "fc"
  | Targetportfc => "targetportfc" | Fcport => "fcport"
  | Iscsiport => "iscsiport" | Fcmap => "fcmap"
  | Fcconsistgrp => "fcconsistgrp" | Vdiskcopy => "vdiskcopy"
  | Array => "array" | System => "system"
  end.

Definition getter (c : category) : IBMSVCGatherInfo -> M (list record) :=
  match c with
  | Vol => get_volumes_list | Pool => get_pools_list
  | Node => get_nodes_list | Iog => get_iogroups_list
  | Host => get_hosts_list | Hc => get_host_clusters_list
  | Fc => get_fc_connectivity_list
  | Targetportfc => get_target_port_fc_list | Fcport => get_fc_ports_list
  | Iscsiport => get_iscsi_ports_list | Fcmap => get_fc_map_list
  | Fcconsistgrp => get_fcconsistgrp_list
  | Vdiskcopy => get_vdiskcopy_list
  | Array => get_array_list | System => get_system_list
  end.

Definition command (c : category) : string :=
  match c with
  | Vol => "lsvdisk" | Pool => "lsmdiskgrp" | Node => "lsnode"
  | Iog => "lsiogrp" | Host => "lshost" | Hc => "lshostcluster"
  | Fc => "lsfabric" | Targetportfc => "lstargetportfc"
  | Fcport => "lsportfc" | Iscsiport => "lsportip" | Fcmap => "lsfcmap"
  | Fcconsistgrp => "lsfcconsistgrp" | Vdiskcopy => "lsvdiskcopy"
  | Array => "lsarray" | System => "lssystem"
  end.

(** What the failure template calls the category. *)
Definition entity (c : category) : string :=
  match c with
  | Vol => "Volumes" | Pool => "Pools" | Node => "Nodes"
  | Iog => "IO Groups" | Host => "Hosts" | Hc => "Host Cluster"
  | Fc => "FC Connectivity" | Targetportfc => "target port fc"
  | Fcport => "fc ports" | Iscsiport => "iscsi ports" | Fcmap => "fc maps"
  | Fcconsistgrp => "fcconsistgrp info" | Vdiskcopy => "vdiskcopy info"
  | Array => "Array info" | System => "System info"
  end.

Definition fail_fmt (c : category) : string :=
  "Get " ++ entity c ++ " from array %s failed with error %s ".

(** What the success log entry says it listed (as the source has it:
    the entries of nodes and of I/O groups name another category). *)
Definition listed (c : category) : string :=
  match c with
  | Vol => "volumes" | Pool => "pools" | Node => "pools"
  | Iog => "hosts" | Host => "hosts" | Hc => "host clusters"
  | Fc => "fc connectivity" | Targetportfc => "target port fc"
  | Fcport => "fc ports" | Iscsiport => "iscsi ports" | Fcmap => "fc maps"
  | Fcconsistgrp => "fcconsistgrp info" | Vdiskcopy => "vdiskcopy info"
  | Array => "array info" | System => "system info"
  end.

Definition info_fmt (c : category) : string :=
  "Successfully listed %d " ++ listed c ++ " from array %s".

(** The keyword of [exit_json] that carries the category. *)
Definition field (c : category) : string :=
  match c with
  | Vol => "Volumes" | Pool => "Pools" | Node => "Nodes"
  | Iog => "IOGroup" | Host => "Hosts" | Hc => "HostClusters"
  | Fc => "FCConnectivity" | Targetportfc => "TargetPortFC"
  | Fcport => "FCPorts" | Iscsiport => "iSCSIPorts" | Fcmap => "FCMaps"
  | Fcconsistgrp => "FCConsistgrp" | Vdiskcopy => "VdiskCopy"
  | Array => "Array" | System => "System"
  end.

(** The local variables of [apply], one per category. *)
Definition fields : Type := category -> list record.

Definition no_fields : fields := fun _ => [].

Definition set_field (c : category) (v : list record) (f : fields) : fields :=
  fun c' => if category_eq_dec c' c then v else f c'.

(** The keyword arguments of the closing [exit_json], in its order. *)
Definition report (f : fields) : kwargs :=
  map (fun c => (field c, f c))
      [Vol; Pool; Node; Iog; Host; Hc; Fc; Fcconsistgrp; Vdiskcopy;
       Fcport; Targetportfc; Iscsiport; Fcmap; Array; System].

(** One [if label in subset: x = self.get_..._list()]. *)
Definition branch (self : IBMSVCGatherInfo) (subset : list string)
           (c : category) : M (list record) :=
  if py_in (label c) subset then getter c self else ret [].

Fixpoint dispatch (self : IBMSVCGatherInfo) (subset : list string)
         (cs : list category) (f : fields) (k : fields -> M unit) : M unit :=
  match cs with
  | [] => k f
  | c :: cs' =>
      v <- branch self subset c ;;
      dispatch self subset cs' (set_field c v f) k
  end.

(** The subset that [apply] works with. *)
Definition defaulted (gs : list string) : bool :=
  Nat.eqb (List.length gs) 0 || py_in "all" gs.

Definition effective_subset (gs : list string) : list string :=
  if defaulted gs then all_subset else gs.

Definition requested (gs : list string) (c : category) : bool :=
  py_in (label c) (effective_subset gs).

(** ** What is read off a trace *)

Definition outcome : Type := (string + list record)%type.

(** The queries of a trace with what they gave, in order. *)
Fixpoint queries (t : list event) : list (string * outcome) :=
  match t with
  | [] => []
  | EvQuery cmd out :: t' => (cmd, out) :: queries t'
  | _ :: t' => queries t'
  end.

(** The keyword arguments of each [exit_json] of a trace. *)
Fixpoint reports (t : list event) : list kwargs :=
  match t with
  | [] => []
  | EvExitJson kw :: t' => kw :: reports t'
  | _ :: t' => reports t'
  end.

(** The message of each [fail_json] of a trace. *)
Fixpoint failures (t : list event) : list pyval :=
  match t with
  | [] => []
  | EvFailJson m :: t' => m :: failures t'
  | _ :: t' => failures t'
  end.

(** [kw[key]]. *)
Fixpoint lookup (key : string) (kw : kwargs) : option (list record) :=
  match kw with
  | [] => None
  | (k, v) :: kw' => if String.eqb key k then Some v else lookup key kw'
  end.

(** ** The answers of the REST client along a sequence of categories,
    up to and with the first failure *)

Fixpoint drive (cs : list category) (s : rest)
  : list (category * outcome) * rest :=
  match cs with
  | [] => ([], s)
  | c :: cs' =>
      match svc_obj_info s (command c) with
      | (inl e, s') => ([(c, inl e)], s')
      | (inr recs, s') =>
          let (ans, s'') := drive cs' s' in ((c, inr recs) :: ans, s'')
      end
  end.

Definition failure_msg (cl : string) (c : category) (e : string) : pyval :=
  PyTuple [PyStr (fail_fmt c); PyStr cl; PyStr e].

Definition answer_events (cl : string) (a : category * outcome)
  : list event :=
  match snd a with
  | inr recs =>
      [EvQuery (command (fst a)) (inr recs);
       EvLogInfo (info_fmt (fst a)) [PyInt (len recs); PyStr cl]]
  | inl e =>
      [EvQuery (command (fst a)) (inl e);
       EvLogError (failure_msg cl (fst a) e);
       EvFailJson (failure_msg cl (fst a) e)]
  end.

Definition is_failure (a : category * outcome) : bool :=
  match snd a with inl _ => true | inr _ => false end.

Definition answered (c : category) (ans : list (category * outcome))
  : list record :=
  match find (fun a => category_eqb (fst a) c) ans with
  | Some (_, inr recs) => recs
  | _ => []
  end.

(** The fields after the chain, from the answers. *)
Definition gathered (ans : list (category * outcome)) : fields :=
  fun c => answered c ans.

Definition settle (cs : list category) (ans : list (category * outcome))
           (f : fields) : fields :=
  fun c => if existsb (category_eqb c) cs then answered c ans else f c.

(** The categories the dispatcher queries when nothing fails. *)
Definition plan (gs : list string) : list category :=
  filter (requested gs) dispatch_order.

Definition prologue (gs : list string) : list event :=
  if defaulted gs
  then [EvLogInfo "The default value for gather_subset is all" []]
  else [].

Definition closing (ans : list (category * outcome)) : list event :=
  if existsb is_failure ans then [] else [EvExitJson (report (gathered ans))].

Definition exit_code (ans : list (category * outcome)) : nat :=
  if existsb is_failure ans then 1 else 0.

(** The categories in the order of the list that stands for 'all'. *)
Definition expansion_order : list category :=
  [Vol; Pool; Node; Iog; Host; Hc; Fc; Fcport; Iscsiport; Fcmap;
   Fcconsistgrp; Vdiskcopy; Targetportfc; Array; System].

(** [needle] occurs in [hay]. *)
Definition occurs_in (needle hay : string) : bool :=
  match String.index 0 needle hay with
  | Some _ => true
  | None => false
  end.

(** A string occurs in a message: in the string itself, or in a
    component of the tuple. *)
Fixpoint msg_contains (s : string) (m : pyval) : bool :=
  match m with
  | PyStr t => occurs_in s t
  | PyInt _ => false
  | PyTuple vs => existsb (msg_contains s) vs
  end.

(** One invocation's answers. *)
Definition answers (p : params) : list (category * outcome) :=
  fst (drive (plan (gather_subset p)) (session (init_world p))).

Definition query_of (a : category * outcome) : string * outcome :=
  (command (fst a), snd a).

Definition failure_of (cl : string) (a : category * outcome) : list pyval :=
  match snd a with
  | inl e => [failure_msg cl (fst a) e]
  | inr _ => []
  end.


(** The answers follow the sequence; either all of it was answered with
    records, or the last answer is the one failure. *)
Inductive answers_of : list category -> list (category * outcome) -> Prop :=
| answers_done : answers_of [] []
| answers_failed c cs e : answers_of (c :: cs) [(c, inl e)]
| answers_more c cs recs ans :
    answers_of cs ans -> answers_of (c :: cs) ((c, inr recs) :: ans).

(** ** More of the module: its argument specification *)

(** The [choices] of [gather_subset] in [argument_spec], and its default. *)
Definition gather_subset_choices : list string :=
  ["vol"; "pool"; "node"; "iog"; "host"; "hc"; "fc"; "fcport";
   "targetportfc"; "iscsiport"; "fcmap"; "fcconsistgrp"; "vdiskcopy";
   "array"; "system"; "all"].

Definition gather_subset_default : list string := ["all"].

(** The log entry that opens [apply] when the subset is replaced. *)
Definition default_notice : event :=
  EvLogInfo "The default value for gather_subset is all" [].

(** The [choices] of [state] in [argument_spec]. *)
Definition state_choices : list string := ["info"].

(** The check [AnsibleModule] makes of the parameters when [__init__]
    builds it, as far as [argument_spec] asks for one here: [state] is
    among its choices, and so is every element of [gather_subset].  (The
    required parameters are fields of [params], so they are present.) *)
Definition accepted (p : params) : bool :=
  py_in (state p) state_choices &&
  forallb (fun l => py_in l gather_subset_choices) (gather_subset p).

(** The module from its parameters: rejected parameters end the process
    in [__init__] through [fail_json], with exit status 1, before the
    logger and the REST client exist; accepted ones give [run].  The
    result is the exit, the trace and the session, if there is one.
    [invalid_msg] is the text with which the framework rejects
    parameters. *)
Definition invoke (invalid_msg : params -> string) (p : params)
  : result unit * list event * option rest :=
  if accepted p
  then (fst (run p), trace (snd (run p)), Some (session (snd (run p))))
  else (SystemExit 1, [EvFailJson (PyStr (invalid_msg p))], None).

(** The place of a category among the tests of [apply]. *)
Fixpoint index_in (c : category) (cs : list category) : nat :=
  match cs with
  | [] => 0
  | c' :: cs' => if category_eqb c c' then 0 else S (index_in c cs')
  end.

Definition position (c : category) : nat := index_in c dispatch_order.

(** ** The chain of [apply] is the iteration of the table *)

Lemma apply_dispatch (self : IBMSVCGatherInfo) (w : world) :
  apply self w =
  (subset <- (if defaulted (gather_subset (module_params self))
              then log_info "The default value for gather_subset is all" [] ;;;
                   ret all_subset
              else ret (gather_subset (module_params self))) ;;
   dispatch self subset dispatch_order no_fields
            (fun f => exit_json (report f))) w.
Proof. reflexivity. Qed.

(** Every method of the table is one query, then one log entry and the
    records, or one error entry and [fail_json]. *)
Lemma getter_run (c : category) (self : IBMSVCGatherInfo) (w : world) :
  getter c self w =
  let (out, s') := svc_obj_info (session w) (command c) in
  let w' := mkWorld s' (trace w ++
              answer_events (clustername (module_params self)) (c, out)) in
  match out with
  | inl e => (SystemExit 1, w')
  | inr recs => (Ret recs, w')
  end.
Proof.
  destruct c; cbv [getter command];
    match goal with
    | |- ?g self w = _ => unfold g
    end;
    unfold try_except, bind, restapi_svc_obj_info, log_info, log_error,
      fail_json, ret, emit, answer_events;
    cbn [session trace fst snd];
    match goal with
    | |- context [svc_obj_info ?s ?cmd] =>
        destruct (svc_obj_info s cmd) as [[e | recs] s']
    end;
    cbn [session trace]; rewrite <- !app_assoc; reflexivity.
Qed.

(** ** Small facts about the table *)

Lemma category_eqb_eq (a b : category) : category_eqb a b = true <-> a = b.
Proof.
  unfold category_eqb; destruct (category_eq_dec a b); split;
    congruence.
Qed.

Lemma category_eqb_refl (a : category) : category_eqb a a = true.
Proof. apply category_eqb_eq; reflexivity. Qed.

Lemma category_eqb_neq (a b : category) : a <> b -> category_eqb a b = false.
Proof.
  intro H; unfold category_eqb; destruct (category_eq_dec a b);
    [contradiction | reflexivity].
Qed.

Lemma all_in_dispatch_order (c : category) : In c dispatch_order.
Proof. destruct c; simpl; tauto. Qed.

Lemma dispatch_order_NoDup : NoDup dispatch_order.
Proof.
  unfold dispatch_order.
  repeat (constructor; [simpl; intuition discriminate |]).
  constructor.
Qed.

Lemma command_inj (a b : category) : command a = command b -> a = b.
Proof. destruct a, b; simpl; intro H; try reflexivity; discriminate H. Qed.

Lemma label_inj (a b : category) : label a = label b -> a = b.
Proof. destruct a, b; simpl; intro H; try reflexivity; discriminate H. Qed.

Lemma expansion_order_labels : map label expansion_order = all_subset.
Proof. reflexivity. Qed.

Lemma py_in_In (x : string) (l : list string) : py_in x l = true <-> In x l.
Proof.
  unfold py_in; rewrite existsb_exists; split.
  - intros [y [Hy Heq]]. apply String.eqb_eq in Heq; subst; exact Hy.
  - intro H; exists x; split; [exact H | apply String.eqb_refl].
Qed.

Lemma py_in_all_subset (c : category) : py_in (label c) all_subset = true.
Proof. destruct c; reflexivity. Qed.

Lemma report_ext (f g : fields) :
  (forall c, f c = g c) -> report f = report g.
Proof.
  intro H; unfold report; apply map_ext; intro c; rewrite H; reflexivity.
Qed.

Lemma lookup_report (f : fields) (c : category) :
  lookup (field c) (report f) = Some (f c).
Proof. destruct c; reflexivity. Qed.

Lemma report_keys (f : fields) :
  map fst (report f) =
  ["Volumes"; "Pools"; "Nodes"; "IOGroup"; "Hosts"; "HostClusters";
   "FCConnectivity"; "FCConsistgrp"; "VdiskCopy"; "FCPorts";
   "TargetPortFC"; "iSCSIPorts"; "FCMaps"; "Array"; "System"].
Proof. reflexivity. Qed.

(** ** Reading a trace piecewise *)

Lemma queries_app (t u : list event) :
  queries (t ++ u) = queries t ++ queries u.
Proof.
  induction t as [| e t IH]; [reflexivity |].
  destruct e; simpl; rewrite IH; reflexivity.
Qed.

Lemma reports_app (t u : list event) :
  reports (t ++ u) = reports t ++ reports u.
Proof.
  induction t as [| e t IH]; [reflexivity |].
  destruct e; simpl; rewrite IH; reflexivity.
Qed.

Lemma failures_app (t u : list event) :
  failures (t ++ u) = failures t ++ failures u.
Proof.
  induction t as [| e t IH]; [reflexivity |].
  destruct e; simpl; rewrite IH; reflexivity.
Qed.

(** ** The answers of the REST client *)

Lemma drive_categories (cs : list category) (s : rest) :
  forall a, In a (fst (drive cs s)) -> In (fst a) cs.
Proof.
  revert s; induction cs as [| c cs IH]; intros s a; simpl.
  - tauto.
  - destruct (svc_obj_info s (command c)) as [[e | recs] s1]; simpl.
    + intros [<- | []]; left; reflexivity.
    + specialize (IH s1 a).
      destruct (drive cs s1) as [ans s2]; simpl in *.
      intros [<- | H]; [left; reflexivity | right; auto].
Qed.

Lemma drive_answers (cs : list category) (s : rest) :
  answers_of cs (fst (drive cs s)).
Proof.
  revert s; induction cs as [| c cs IH]; intro s; simpl.
  - constructor.
  - destruct (svc_obj_info s (command c)) as [[e | recs] s1]; simpl.
    + constructor.
    + specialize (IH s1). destruct (drive cs s1) as [ans s2]; simpl in *.
      constructor; exact IH.
Qed.

Lemma answers_success (cs : list category) (ans : list (category * outcome)) :
  answers_of cs ans -> existsb is_failure ans = false ->
  map fst ans = cs /\ forall a, In a ans -> exists recs, snd a = inr recs.
Proof.
  induction 1 as [| c cs e | c cs recs ans H IH]; simpl; intro Hf.
  - split; [reflexivity | intros a []].
  - discriminate Hf.
  - destruct (IH Hf) as [Hm Hall]. split.
    + rewrite Hm; reflexivity.
    + intros a [<- | Ha]; [exists recs; reflexivity | auto].
Qed.

Lemma answers_failure (cs : list category) (ans : list (category * outcome)) :
  answers_of cs ans -> existsb is_failure ans = true ->
  exists good c e later,
    ans = good ++ [(c, inl e)] /\
    existsb is_failure good = false /\
    (forall a, In a good -> exists recs, snd a = inr recs) /\
    cs = map fst good ++ c :: later.
Proof.
  induction 1 as [| c cs e | c cs recs ans H IH]; simpl; intro Hf.
  - discriminate Hf.
  - exists [], c, e, cs. repeat split; try reflexivity. intros a [].
  - destruct (IH Hf) as (good & c' & e & later & -> & Hg & Hall & ->).
    exists ((c, inr recs) :: good), c', e, later. repeat split.
    + exact Hg.
    + intros a [<- | Ha]; [exists recs; reflexivity | auto].
Qed.

Lemma answers_prefix (cs : list category) (ans : list (category * outcome)) :
  answers_of cs ans -> map fst ans = firstn (List.length ans) cs.
Proof.
  induction 1 as [| c cs e | c cs recs ans H IH]; simpl.
  - reflexivity.
  - reflexivity.
  - rewrite <- IH; reflexivity.
Qed.

Lemma answered_absent (c : category) (ans : list (category * outcome)) :
  ~ In c (map fst ans) -> answered c ans = [].
Proof.
  unfold answered; intro H.
  destruct (find _ ans) as [[c' o] |] eqn:E; [| reflexivity].
  apply find_some in E; destruct E as [Hin Heq]; simpl in Heq.
  apply category_eqb_eq in Heq; subst c'.
  exfalso; apply H; apply in_map_iff; exists (c, o); auto.
Qed.

Lemma answered_present (c : category) (recs : list record)
      (ans : list (category * outcome)) :
  NoDup (map fst ans) -> In (c, inr recs) ans -> answered c ans = recs.
Proof.
  unfold answered; induction ans as [| [c' o] ans IH]; simpl; intros Hnd Hin.
  - contradiction.
  - inversion Hnd as [| x l Hx Hnd']; subst.
    destruct Hin as [Heq | Hin].
    + inversion Heq; subst. rewrite category_eqb_refl. reflexivity.
    + rewrite category_eqb_neq.
      * apply IH; assumption.
      * intros ->. apply Hx. apply in_map_iff. exists (c, inr recs); auto.
  Qed.

(** ** The chain, in closed form *)

Lemma filter_requested_categories (subset : list string) (cs : list category)
      (c : category) :
  py_in (label c) subset = false ->
  ~ In c (filter (fun c' => py_in (label c') subset) cs).
Proof.
  intros H Hin. apply filter_In in Hin. destruct Hin as [_ Hin].
  rewrite H in Hin. discriminate Hin.
Qed.

Lemma dispatch_spec (self : IBMSVCGatherInfo) (subset : list string)
      (cs : list category) :
  NoDup cs ->
  forall (f : fields) (w : world),
    dispatch self subset cs f (fun f' => exit_json (report f')) w =
    let (ans, s') :=
      drive (filter (fun c => py_in (label c) subset) cs) (session w) in
    let t' :=
      trace w ++ flat_map (answer_events (clustername (module_params self))) ans in
    if existsb is_failure ans
    then (SystemExit 1, mkWorld s' t')
    else (SystemExit 0,
          mkWorld s' (t' ++ [EvExitJson (report (settle cs ans f))])).
Proof.
  induction cs as [| c cs IH]; intros Hnd f w.
  - simpl. unfold exit_json, emit. rewrite app_nil_r.
    rewrite (report_ext (settle [] [] f) f); [reflexivity |].
    intro c; reflexivity.
  - inversion Hnd as [| x l Hc Hnd']; subst.
    cbn [dispatch filter]. unfold bind at 1. unfold branch.
    destruct (py_in (label c) subset) eqn:Hsel.
    + rewrite getter_run. cbn [drive].
      destruct (svc_obj_info (session w) (command c)) as [[e | recs] s1].
      * cbn [flat_map existsb is_failure snd orb].
        rewrite app_nil_r. reflexivity.
      * rewrite (IH Hnd'). cbn [session trace].
        destruct (drive _ s1) as [ans s2].
        cbn [flat_map existsb is_failure snd orb].
        rewrite <- app_assoc.
        rewrite (report_ext (settle cs ans (set_field c recs f))
                            (settle (c :: cs) ((c, inr recs) :: ans) f)).
        { reflexivity. }
        intro c'. unfold settle, set_field, answered.
        cbn [existsb find fst].
        destruct (category_eq_dec c' c) as [-> | Hne].
        -- rewrite category_eqb_refl. cbn [orb].
           destruct (existsb (category_eqb c) cs) eqn:E; [| reflexivity].
           apply existsb_exists in E. destruct E as [y [Hy Heq]].
           apply category_eqb_eq in Heq; subst y. contradiction.
        -- rewrite (category_eqb_neq Hne). cbn [orb].
           rewrite (category_eqb_neq (fun H => Hne (eq_sym H))).
           reflexivity.
    + unfold ret at 1. rewrite (IH Hnd').
      pose proof (drive_categories
                    (filter (fun c0 => py_in (label c0) subset) cs)
                    (session w)) as Hcat.
      destruct (drive _ (session w)) as [ans s2]. cbn [fst] in Hcat.
      rewrite (report_ext (settle cs ans (set_field c [] f))
                          (settle (c :: cs) ans f)).
      { reflexivity. }
      intro c'. unfold settle, set_field. cbn [existsb].
      destruct (category_eq_dec c' c) as [-> | Hne].
      * rewrite category_eqb_refl. cbn [orb].
        rewrite answered_absent.
        -- destruct (existsb (category_eqb c) cs); reflexivity.
        -- intro Hin. apply in_map_iff in Hin.
           destruct Hin as [a [Ha Hin]]. apply Hcat in Hin.
           rewrite Ha in Hin. apply filter_In in Hin.
           destruct Hin as [Hin _]. contradiction.
      * rewrite (category_eqb_neq Hne). reflexivity.
Qed.

Lemma settle_all (ans : list (category * outcome)) (c : category) :
  settle dispatch_order ans no_fields c = gathered ans c.
Proof.
  unfold settle, gathered.
  destruct (existsb (category_eqb c) dispatch_order) eqn:E; [reflexivity |].
  assert (H : existsb (category_eqb c) dispatch_order = true).
  { apply existsb_exists. exists c. split.
    - apply all_in_dispatch_order.
    - apply category_eqb_refl. }
  rewrite H in E. discriminate E.
Qed.

Lemma plan_filter (gs : list string) :
  plan gs =
  filter (fun c => py_in (label c) (effective_subset gs)) dispatch_order.
Proof. reflexivity. Qed.

(** What [apply] does, from any world. *)
Lemma apply_spec (self : IBMSVCGatherInfo) (w : world) :
  apply self w =
  let gs := gather_subset (module_params self) in
  let (ans, s') := drive (plan gs) (session w) in
  (SystemExit (exit_code ans),
   mkWorld s' (trace w ++ prologue gs ++
               flat_map (answer_events (clustername (module_params self))) ans ++
               closing ans)).
Proof.
  rewrite apply_dispatch. cbv zeta. unfold bind at 1.
  rewrite plan_filter. unfold effective_subset, prologue.
  destruct (defaulted (gather_subset (module_params self))).
  - unfold bind at 1, log_info, ret, emit.
    rewrite (dispatch_spec self all_subset dispatch_order_NoDup).
    cbn [session trace].
    destruct (drive _ (session w)) as [ans s'].
    unfold exit_code, closing.
    rewrite (report_ext _ _ (settle_all ans)).
    destruct (existsb is_failure ans);
      rewrite <- ?app_assoc; cbn [app]; rewrite ?app_nil_r; reflexivity.
  - unfold ret at 1.
    rewrite (dispatch_spec self _ dispatch_order_NoDup).
    destruct (drive _ (session w)) as [ans s'].
    unfold exit_code, closing.
    rewrite (report_ext _ _ (settle_all ans)).
    destruct (existsb is_failure ans);
      rewrite <- ?app_assoc; cbn [app]; rewrite ?app_nil_r; reflexivity.
Qed.

(** [apply] leaves by [SystemExit], so the handler of [main] never runs. *)
Lemma main_apply (p : params) (w : world) : main p w = apply (init p) w.
Proof.
  unfold main. cbv zeta. unfold try_except. rewrite apply_spec. cbv zeta.
  destruct (drive _ (session w)) as [ans s']. reflexivity.
Qed.

(** One invocation, in closed form. *)
Lemma run_spec (p : params) :
  run p =
  let (ans, s') := drive (plan (gather_subset p)) (session (init_world p)) in
  (SystemExit (exit_code ans),
   mkWorld s' (prologue (gather_subset p) ++
               flat_map (answer_events (clustername p)) ans ++
               closing ans)).
Proof.
  unfold run. rewrite main_apply, apply_spec. reflexivity.
Qed.


(** ** What one invocation leaves behind *)

Lemma run_exit (p : params) : fst (run p) = SystemExit (exit_code (answers p)).
Proof.
  rewrite run_spec. unfold answers.
  destruct (drive _ _) as [ans s']. reflexivity.
Qed.

Lemma run_trace (p : params) :
  trace (snd (run p)) =
  prologue (gather_subset p) ++
  flat_map (answer_events (clustername p)) (answers p) ++
  closing (answers p).
Proof.
  rewrite run_spec. unfold answers.
  destruct (drive _ _) as [ans s']. reflexivity.
Qed.

Lemma run_session (p : params) :
  session (snd (run p)) =
  snd (drive (plan (gather_subset p)) (session (init_world p))).
Proof.
  rewrite run_spec. destruct (drive _ _) as [ans s']. reflexivity.
Qed.

Lemma run_answers (p : params) : answers_of (plan (gather_subset p)) (answers p).
Proof. apply drive_answers. Qed.

Lemma queries_answers (cl : string) (ans : list (category * outcome)) :
  queries (flat_map (answer_events cl) ans) = map query_of ans.
Proof.
  induction ans as [| [c [e | recs]] ans IH]; [reflexivity | |];
    cbn [flat_map]; rewrite queries_app, IH; reflexivity.
Qed.

Lemma reports_answers (cl : string) (ans : list (category * outcome)) :
  reports (flat_map (answer_events cl) ans) = [].
Proof.
  induction ans as [| [c [e | recs]] ans IH]; [reflexivity | |];
    cbn [flat_map]; rewrite reports_app, IH; reflexivity.
Qed.

Lemma failures_answers (cl : string) (ans : list (category * outcome)) :
  failures (flat_map (answer_events cl) ans) = flat_map (failure_of cl) ans.
Proof.
  induction ans as [| [c [e | recs]] ans IH]; [reflexivity | |];
    cbn [flat_map]; rewrite failures_app, IH; reflexivity.
Qed.

Lemma failures_good (cl : string) (good : list (category * outcome)) :
  (forall a, In a good -> exists recs, snd a = inr recs) ->
  flat_map (failure_of cl) good = [].
Proof.
  induction good as [| [c o] good IH]; intro H; [reflexivity |].
  destruct (H (c, o) (or_introl eq_refl)) as [recs Ho].
  simpl in Ho; subst o. cbn [flat_map failure_of snd app].
  apply IH. intros a Ha. apply H. right; exact Ha.
Qed.

Lemma run_queries (p : params) :
  queries (trace (snd (run p))) = map query_of (answers p).
Proof.
  rewrite run_trace, !queries_app, queries_answers.
  unfold prologue, closing.
  destruct (defaulted _), (existsb is_failure _); cbn [queries app];
    rewrite app_nil_r; reflexivity.
Qed.

Lemma run_reports (p : params) :
  reports (trace (snd (run p))) =
  if existsb is_failure (answers p) then []
  else [report (gathered (answers p))].
Proof.
  rewrite run_trace, !reports_app, reports_answers.
  unfold prologue, closing.
  destruct (defaulted _), (existsb is_failure _); reflexivity.
Qed.

Lemma run_failures (p : params) :
  failures (trace (snd (run p))) =
  flat_map (failure_of (clustername p)) (answers p).
Proof.
  rewrite run_trace, !failures_app, failures_answers.
  unfold prologue, closing.
  destruct (defaulted _), (existsb is_failure _); cbn [failures app];
    rewrite app_nil_r; reflexivity.
Qed.

Lemma exit_code_success (ans : list (category * outcome)) :
  @SystemExit unit (exit_code ans) = SystemExit 0 ->
  existsb is_failure ans = false.
Proof.
  unfold exit_code. destruct (existsb is_failure ans); [| reflexivity].
  intro H; discriminate H.
Qed.

Lemma run_commands (p : params) :
  map fst (queries (trace (snd (run p)))) =
  map command (map fst (answers p)).
Proof.
  rewrite run_queries, !map_map. reflexivity.
Qed.

Lemma plan_NoDup (gs : list string) : NoDup (plan gs).
Proof. apply NoDup_filter, dispatch_order_NoDup. Qed.

Lemma firstn_NoDup {A} (n : nat) (l : list A) : NoDup l -> NoDup (firstn n l).
Proof.
  intro H. rewrite <- (firstn_skipn n l) in H.
  apply NoDup_app_remove_r in H. exact H.
Qed.

Lemma answers_NoDup (p : params) : NoDup (map fst (answers p)).
Proof.
  rewrite (answers_prefix (run_answers p)).
  apply firstn_NoDup, plan_NoDup.
Qed.

Lemma commands_NoDup (cs : list category) : NoDup cs -> NoDup (map command cs).
Proof.
  induction 1 as [| c cs Hc Hnd IH]; simpl; constructor; [| exact IH].
  intro Hin. apply in_map_iff in Hin. destruct Hin as [c' [Heq Hin]].
  apply command_inj in Heq. subst c'. contradiction.
Qed.


(** ** The properties of the dispatcher *)

(** C6.  A successful invocation calls [exit_json] once, and the keywords
    it passes are exactly Volumes, Pools, Nodes, IOGroup, Hosts,
    HostClusters, FCConnectivity, FCConsistgrp, VdiskCopy, FCPorts,
    TargetPortFC, iSCSIPorts, FCMaps, Array and System, each once and each
    bound to a list of records; [fail_json] is not called. *)
Theorem report_has_the_fifteen_fields (p : params) :
  fst (run p) = SystemExit 0 ->
  exists kw : list (string * list record),
    reports (trace (snd (run p))) = [kw] /\
    map fst kw =
      ["Volumes"; "Pools"; "Nodes"; "IOGroup"; "Hosts"; "HostClusters";
       "FCConnectivity"; "FCConsistgrp"; "VdiskCopy"; "FCPorts";
       "TargetPortFC"; "iSCSIPorts"; "FCMaps"; "Array"; "System"] /\
    failures (trace (snd (run p))) = [].
Proof.
  intro Hok. rewrite run_exit in Hok. apply exit_code_success in Hok.
  exists (report (gathered (answers p))). repeat split.
  - rewrite run_reports, Hok. reflexivity.
  - rewrite run_failures. apply failures_good.
    apply (answers_success (run_answers p) Hok).
Qed.

(** C8.  In one invocation no command reaches the REST client more than
    once, whatever the subset and whether queries succeed or fail. *)
Theorem no_query_is_repeated (p : params) (cmd : string) :
  count_occ string_dec (map fst (queries (trace (snd (run p))))) cmd <= 1.
Proof.
  revert cmd. apply NoDup_count_occ.
  rewrite run_commands. apply commands_NoDup, answers_NoDup.
Qed.

(** After the parameters were accepted, [name] and [state] reach nothing:
    [name] is only stored in the object and [state] is not read again. *)
Lemma run_ignores_name_and_state (p : params) (n s : string) :
  run (set_name_state n s p) = run p.
Proof. reflexivity. Qed.

(** C10, as the code has it.  Among accepted parameters [name] and
    [state] do not reach the outcome: when the parameters are accepted and
    the new state is among the choices of [state], changing [name] and
    [state] leaves them accepted and changes neither the exit, nor the
    trace (queries, log entries, report or failure message), nor the
    session.  The new state is then the old one, since the choices hold
    'info' alone; any other state is rejected when the module is built. *)
Theorem name_and_accepted_state_are_ignored
        (invalid_msg : params -> string) (p : params) (n s : string) :
  accepted p = true ->
  In s state_choices ->
  s = state p /\
  accepted (set_name_state n s p) = true /\
  invoke invalid_msg (set_name_state n s p) = invoke invalid_msg p.
Proof.
  intros Hp Hs.
  assert (Hacc : accepted (set_name_state n s p) = true).
  { unfold accepted in *. cbn [state gather_subset set_name_state].
    apply andb_true_iff in Hp. destruct Hp as [_ Hg].
    rewrite Hg, andb_true_r. apply py_in_In, Hs. }
  split; [| split; [exact Hacc |]].
  - unfold accepted in Hp. apply andb_true_iff in Hp. destruct Hp as [Hst _].
    apply py_in_In in Hst. unfold state_choices in *.
    destruct Hs as [<- | []]. destruct Hst as [<- | []]. reflexivity.
  - unfold invoke. rewrite Hacc, Hp, run_ignores_name_and_state.
    reflexivity.
Qed.


(** *** Which subset is worked with *)

Lemma filter_all_true {A} (f : A -> bool) (l : list A) :
  (forall x, In x l -> f x = true) -> filter f l = l.
Proof.
  induction l as [| x l IH]; intro H; [reflexivity |].
  simpl. rewrite (H x (or_introl eq_refl)). f_equal.
  apply IH. intros y Hy. apply H. right; exact Hy.
Qed.

Lemma defaulted_iff (gs : list string) :
  defaulted gs = true <-> gs = [] \/ In "all" gs.
Proof.
  unfold defaulted. rewrite orb_true_iff, py_in_In, Nat.eqb_eq.
  split; (intros [H | H]; [left | right; exact H]).
  - destruct gs; [reflexivity | discriminate H].
  - subst gs; reflexivity.
Qed.

Lemma requested_defaulted (gs : list string) (c : category) :
  defaulted gs = true -> requested gs c = true.
Proof.
  intro H. unfold requested, effective_subset. rewrite H.
  apply py_in_all_subset.
Qed.

Lemma requested_listed (gs : list string) (c : category) :
  In (label c) gs -> requested gs c = true.
Proof.
  intro H. unfold requested, effective_subset.
  destruct (defaulted gs); [apply py_in_all_subset | apply py_in_In, H].
Qed.

Lemma plan_everything (gs : list string) :
  (forall c, requested gs c = true) -> plan gs = dispatch_order.
Proof. intro H. apply filter_all_true. intros c _. apply H. Qed.

Lemma plan_requested (gs : list string) (c : category) :
  In c (plan gs) <-> requested gs c = true.
Proof.
  unfold plan. rewrite filter_In. split; [tauto |].
  intro H; split; [apply all_in_dispatch_order | exact H].
Qed.

(** Two invocations that differ in the subset only, query the same plan
    and agree in everything but the opening log entry. *)
Lemma run_same_plan (p : params) (gs gs' : list string) :
  plan gs = plan gs' ->
  answers (set_gather_subset gs p) = answers (set_gather_subset gs' p) /\
  session (snd (run (set_gather_subset gs p))) =
  session (snd (run (set_gather_subset gs' p))).
Proof.
  intro H. rewrite !run_session. unfold answers.
  cbn [gather_subset set_gather_subset]. rewrite H. split; reflexivity.
Qed.

Lemma run_same_subset (p : params) (gs gs' : list string) :
  defaulted gs = defaulted gs' -> plan gs = plan gs' ->
  run (set_gather_subset gs p) = run (set_gather_subset gs' p).
Proof.
  intros Hd Hp. rewrite !run_spec.
  cbn [gather_subset set_gather_subset clustername].
  unfold prologue. rewrite Hd, Hp. reflexivity.
Qed.

(** On success every planned category was answered with records, and
    these are the records of its field. *)
Lemma success_field (p : params) (c : category) :
  existsb is_failure (answers p) = false ->
  requested (gather_subset p) c = true ->
  exists recs,
    In (c, inr recs) (answers p) /\ gathered (answers p) c = recs.
Proof.
  intros Hok Hreq.
  destruct (answers_success (run_answers p) Hok) as [Hm Hall].
  apply plan_requested in Hreq. rewrite <- Hm in Hreq.
  apply in_map_iff in Hreq. destruct Hreq as [[c' o] [Heq Hin]].
  simpl in Heq; subst c'.
  destruct (Hall _ Hin) as [recs Ho]. simpl in Ho; subst o.
  exists recs. split; [exact Hin |].
  apply answered_present; [apply answers_NoDup | exact Hin].
Qed.

Lemma unrequested_field (p : params) (c : category) :
  requested (gather_subset p) c = false ->
  gathered (answers p) c = [].
Proof.
  intro Hreq. apply answered_absent. intro Hin.
  rewrite (answers_prefix (run_answers p)) in Hin.
  assert (Hp : In c (plan (gather_subset p))).
  { rewrite <- (firstn_skipn (List.length (answers p)) (plan (gather_subset p))).
    apply in_or_app. left; exact Hin. }
  apply plan_requested in Hp. rewrite Hp in Hreq. discriminate Hreq.
Qed.

(** C1.  An empty subset, or one that holds 'all', gives what a subset
    listing the label of every category gives: the same exit, the same
    session, the same queries with the same answers, the same report and
    the same failure message.  And the invocation either succeeds, having
    sent the fifteen commands, with one report that binds the field of
    each of the fifteen categories to the records its query returned; or
    it exits with status 1 without a report, and a query had raised. *)
Theorem all_or_empty_is_every_category
        (p : params) (gs gs' : list string) :
  gs = [] \/ In "all" gs ->
  (forall c, In (label c) gs') ->
  let r := run (set_gather_subset gs p) in
  let r' := run (set_gather_subset gs' p) in
  fst r = fst r' /\
  session (snd r) = session (snd r') /\
  queries (trace (snd r)) = queries (trace (snd r')) /\
  reports (trace (snd r)) = reports (trace (snd r')) /\
  failures (trace (snd r)) = failures (trace (snd r')) /\
  ((fst r = SystemExit 0 /\
    map fst (queries (trace (snd r))) =
      ["lsvdisk"; "lsmdiskgrp"; "lsnode"; "lsiogrp"; "lshost";
       "lshostcluster"; "lsfabric"; "lstargetportfc"; "lsportfc";
       "lsportip"; "lsfcmap"; "lsfcconsistgrp"; "lsvdiskcopy";
       "lsarray"; "lssystem"] /\
    exists kw,
      reports (trace (snd r)) = [kw] /\
      forall c, exists recs,
        In (command c, inr recs) (queries (trace (snd r))) /\
        lookup (field c) kw = Some recs)
   \/
   (fst r = SystemExit 1 /\
    reports (trace (snd r)) = [] /\
    exists cmd e, In (cmd, inl e) (queries (trace (snd r))))).
Proof.
  intros Hgs Hgs' r r'. subst r r'.
  apply defaulted_iff in Hgs.
  assert (Hall : plan gs = dispatch_order).
  { apply plan_everything. intro c. apply requested_defaulted, Hgs. }
  assert (Hplan : plan gs = plan gs').
  { rewrite Hall, plan_everything; [reflexivity |].
    intro c. apply requested_listed, Hgs'. }
  destruct (run_same_plan p gs gs' Hplan) as [Hans Hses].
  rewrite !run_exit, !run_queries, !run_reports, !run_failures.
  rewrite <- Hans. cbn [clustername set_gather_subset].
  repeat (split; [first [reflexivity | exact Hses] |]).
  pose proof (run_answers (set_gather_subset gs p)) as Hof.
  cbn [gather_subset set_gather_subset] in Hof.
  unfold exit_code.
  destruct (existsb is_failure (answers (set_gather_subset gs p))) eqn:Hf.
  - right. split; [reflexivity |]. split; [reflexivity |].
    destruct (answers_failure Hof Hf) as (good & c & e & later & Hg & _).
    exists (command c), e. rewrite Hg, map_app.
    apply in_or_app. right. left. reflexivity.
  - left. split; [reflexivity |]. split.
    + destruct (answers_success Hof Hf) as [Hm _].
      transitivity (map command
                        (map fst (answers (set_gather_subset gs p)))).
      * rewrite !map_map. reflexivity.
      * rewrite Hm, Hall. reflexivity.
    + eexists; split; [reflexivity |].
      intro c.
      destruct (success_field (set_gather_subset gs p) c Hf)
        as [recs [Hin Hg]].
      { cbn [gather_subset set_gather_subset].
        apply requested_defaulted, Hgs. }
      exists recs. split.
      * apply in_map_iff. exists (c, inr recs).
        split; [reflexivity | exact Hin].
      * rewrite lookup_report, Hg. reflexivity.
Qed.


Lemma py_in_same (gs1 gs2 : list string) (l : string) :
  (forall x, In x gs1 <-> In x gs2) -> py_in l gs1 = py_in l gs2.
Proof.
  intro H. destruct (py_in l gs2) eqn:E.
  - apply py_in_In, H, py_in_In, E.
  - destruct (py_in l gs1) eqn:E1; [| reflexivity].
    apply py_in_In, H, py_in_In in E1. congruence.
Qed.

Lemma defaulted_same (gs1 gs2 : list string) :
  (forall x, In x gs1 <-> In x gs2) -> defaulted gs1 = defaulted gs2.
Proof.
  intro H. unfold defaulted. rewrite (py_in_same gs1 gs2 "all" H). f_equal.
  destruct gs1 as [| x gs1], gs2 as [| y gs2]; try reflexivity.
  - destruct (proj2 (H y) (or_introl eq_refl)).
  - destruct (proj1 (H x) (or_introl eq_refl)).
Qed.

Lemma plan_same (gs1 gs2 : list string) :
  defaulted gs1 = defaulted gs2 ->
  (defaulted gs1 = false -> forall l, py_in l gs1 = py_in l gs2) ->
  plan gs1 = plan gs2.
Proof.
  intros Hd Hin. unfold plan. apply filter_ext. intro c.
  unfold requested, effective_subset. rewrite <- Hd.
  destruct (defaulted gs1); [reflexivity | apply Hin; reflexivity].
Qed.

(** C9.  The outcome depends on the set of labels only: two subsets with
    the same labels, in whatever order and however often repeated, give
    the same exit, the same session and the same trace (queries, log
    entries, report, failure message); and so do two subsets that both
    hold 'all', whatever else they hold, such as the subset and ['all']. *)
Theorem outcome_depends_on_label_set (p : params) (gs1 gs2 : list string) :
  (forall l, In l gs1 <-> In l gs2) \/ (In "all" gs1 /\ In "all" gs2) ->
  run (set_gather_subset gs1 p) = run (set_gather_subset gs2 p).
Proof.
  intros [Hsame | [H1 H2]].
  - apply run_same_subset.
    + apply defaulted_same, Hsame.
    + apply plan_same; [apply defaulted_same, Hsame |].
      intros _ l. apply py_in_same, Hsame.
  - assert (Hd1 : defaulted gs1 = true) by (apply defaulted_iff; auto).
    assert (Hd2 : defaulted gs2 = true) by (apply defaulted_iff; auto).
    apply run_same_subset.
    + congruence.
    + apply plan_same; [congruence |]. intro H. congruence.
Qed.

(** *** Failure *)

Lemma run_failed (p : params) :
  existsb is_failure (answers p) = true ->
  exists good c e,
    answers p = good ++ [(c, inl e)] /\
    (forall a, In a good -> exists recs, snd a = inr recs) /\
    trace (snd (run p)) =
      (prologue (gather_subset p) ++
       flat_map (answer_events (clustername p)) good) ++
      [EvQuery (command c) (inl e);
       EvLogError (failure_msg (clustername p) c e);
       EvFailJson (failure_msg (clustername p) c e)].
Proof.
  intro Hf.
  destruct (answers_failure (run_answers p) Hf)
    as (good & c & e & later & Hans & _ & Hall & _).
  exists good, c, e. repeat split; [exact Hans | exact Hall |].
  rewrite run_trace. unfold closing. rewrite Hf, Hans.
  rewrite flat_map_app, app_nil_r, <- app_assoc. reflexivity.
Qed.

Lemma query_raised (p : params) (cmd e : string) :
  In (cmd, inl e) (queries (trace (snd (run p)))) ->
  exists good c,
    cmd = command c /\
    answers p = good ++ [(c, inl e)] /\
    (forall a, In a good -> exists recs, snd a = inr recs) /\
    trace (snd (run p)) =
      (prologue (gather_subset p) ++
       flat_map (answer_events (clustername p)) good) ++
      [EvQuery (command c) (inl e);
       EvLogError (failure_msg (clustername p) c e);
       EvFailJson (failure_msg (clustername p) c e)].
Proof.
  intro Hin. rewrite run_queries in Hin.
  destruct (existsb is_failure (answers p)) eqn:Hf.
  - destruct (run_failed p Hf) as (good & c & e' & Hans & Hall & Ht).
    rewrite Hans, map_app in Hin. apply in_app_or in Hin.
    destruct Hin as [Hin | [Heq | []]].
    + apply in_map_iff in Hin. destruct Hin as [a [Heq Ha]].
      destruct (Hall a Ha) as [recs Hr].
      apply (f_equal snd) in Heq. cbn [query_of snd] in Heq.
      unfold outcome in *. congruence.
    + unfold query_of in Heq. cbn [fst snd] in Heq.
      inversion Heq; subst. exists good, c. repeat split; assumption.
  - destruct (answers_success (run_answers p) Hf) as [_ Hall].
    apply in_map_iff in Hin. destruct Hin as [a [Heq Ha]].
    destruct (Hall a Ha) as [recs Hr].
    apply (f_equal snd) in Heq. cbn [query_of snd] in Heq.
      unfold outcome in *. congruence.
Qed.

Lemma queries_good (cl : string) (good : list (category * outcome)) :
  (forall a, In a good -> exists recs, snd a = inr recs) ->
  forall q, In q (queries (flat_map (answer_events cl) good)) ->
            exists recs, snd q = inr recs.
Proof.
  intros Hall q Hq. rewrite queries_answers in Hq.
  apply in_map_iff in Hq. destruct Hq as [a [<- Ha]].
  destruct (Hall a Ha) as [recs Hr]. exists recs. exact Hr.
Qed.

Lemma prologue_quiet (gs : list string) :
  queries (prologue gs) = [] /\ reports (prologue gs) = [] /\
  failures (prologue gs) = [].
Proof. unfold prologue. destruct (defaulted gs); repeat split. Qed.

(** C2.  When a query raises, the invocation ends there: the trace closes
    with that query, the error log entry and [fail_json] (so no query
    follows), every query before it had returned records, [exit_json] is
    not called, [fail_json] is called once, and the process leaves with
    exit status 1. *)
Theorem failed_query_aborts (p : params) (cmd e : string) :
  In (cmd, inl e) (queries (trace (snd (run p)))) ->
  exists (before : list event) (m : pyval),
    trace (snd (run p)) =
      before ++ [EvQuery cmd (inl e); EvLogError m; EvFailJson m] /\
    (forall q, In q (queries before) -> exists recs, snd q = inr recs) /\
    reports (trace (snd (run p))) = [] /\
    failures (trace (snd (run p))) = [m] /\
    fst (run p) = SystemExit 1.
Proof.
  intro Hin.
  destruct (query_raised p cmd e Hin) as (good & c & -> & Hans & Hall & Ht).
  assert (Hf : existsb is_failure (answers p) = true).
  { rewrite Hans, existsb_app. cbn. apply orb_true_r. }
  eexists; eexists. split; [exact Ht |]. repeat split.
  - intros q Hq. rewrite queries_app in Hq.
    rewrite (proj1 (prologue_quiet _)) in Hq. cbn [app] in Hq.
    exact (queries_good _ _ Hall q Hq).
  - rewrite run_reports, Hf. reflexivity.
  - rewrite run_failures, Hans, flat_map_app, (failures_good _ _ Hall).
    reflexivity.
  - rewrite run_exit. unfold exit_code. rewrite Hf. reflexivity.
Qed.


(** *** What a failure message holds *)

Lemma prefix_refl (s : string) : String.prefix s s = true.
Proof.
  induction s as [| a s IH]; [reflexivity |].
  simpl. destruct (Ascii.ascii_dec a a) as [_ | Hne];
    [exact IH | contradiction Hne; reflexivity].
Qed.

Lemma occurs_in_refl (s : string) : occurs_in s s = true.
Proof.
  unfold occurs_in. destruct s as [| a s]; [reflexivity |].
  cbn [String.index]. rewrite prefix_refl. reflexivity.
Qed.

Lemma entity_in_template (c : category) :
  occurs_in (entity c) (fail_fmt c) = true.
Proof. destruct c; vm_compute; reflexivity. Qed.

(** C5.  When the query of a category raises, [fail_json] is called once,
    with the triple of the template of that category, the configured
    cluster name and the text of the exception: the message holds the
    words that name the category, the text of the error and the cluster
    name. *)
Theorem failure_message_names_category_error_and_system
        (p : params) (c : category) (e : string) :
  In (command c, inl e) (queries (trace (snd (run p)))) ->
  let m := PyTuple [PyStr ("Get " ++ entity c ++
                           " from array %s failed with error %s ")%string;
                    PyStr (clustername p); PyStr e] in
  failures (trace (snd (run p))) = [m] /\
  msg_contains (entity c) m = true /\
  msg_contains e m = true /\
  msg_contains (clustername p) m = true.
Proof.
  intros Hin m. subst m.
  destruct (query_raised p _ e Hin) as (good & c' & Hc & Hans & Hall & _).
  apply command_inj in Hc. subst c'. repeat split.
  - rewrite run_failures, Hans, flat_map_app, (failures_good _ _ Hall).
    reflexivity.
  - cbn [msg_contains existsb].
    change ("Get " ++ entity c ++ " from array %s failed with error %s ")%string
      with (fail_fmt c).
    rewrite entity_in_template. reflexivity.
  - cbn [msg_contains existsb]. rewrite (occurs_in_refl e).
    rewrite !orb_true_r. reflexivity.
  - cbn [msg_contains existsb]. rewrite (occurs_in_refl (clustername p)).
    rewrite orb_true_r. reflexivity.
Qed.

(** *** What a requested category gets *)

Lemma run_query_requested (p : params) (q : string * outcome) :
  In q (queries (trace (snd (run p)))) ->
  exists c, requested (gather_subset p) c = true /\ fst q = command c.
Proof.
  intro Hq. rewrite run_queries in Hq. apply in_map_iff in Hq.
  destruct Hq as [a [<- Ha]]. exists (fst a). split; [| reflexivity].
  apply plan_requested.
  apply (drive_categories _ _ a Ha).
Qed.

Lemma success_query (p : params) (c : category) :
  existsb is_failure (answers p) = false ->
  requested (gather_subset p) c = true ->
  exists recs,
    In (command c, inr recs) (queries (trace (snd (run p)))) /\
    count_occ string_dec
              (map fst (queries (trace (snd (run p))))) (command c) = 1 /\
    lookup (field c) (report (gathered (answers p))) = Some recs.
Proof.
  intros Hok Hreq.
  destruct (success_field p c Hok Hreq) as [recs [Hin Hg]].
  exists recs. repeat split.
  - rewrite run_queries. apply in_map_iff.
    exists (c, inr recs). split; [reflexivity | exact Hin].
  - rewrite run_commands.
    apply NoDup_count_occ'.
    + apply commands_NoDup, answers_NoDup.
    + apply in_map, in_map_iff. exists (c, inr recs). split;
        [reflexivity | exact Hin].
  - rewrite lookup_report, Hg. reflexivity.
Qed.

Lemma index_in_filter (f : category -> bool) (l : list category) :
  NoDup l ->
  forall (a b : list category) (x y : category),
    filter f l = a ++ x :: b -> In y b -> index_in x l < index_in y l.
Proof.
  induction 1 as [| h t Hh Hnd IH]; intros a b x y Heq Hy.
  - destruct a; discriminate Heq.
  - assert (Hin : forall z, In z (filter f t) -> z <> h).
    { intros z Hz ->. apply filter_In in Hz. destruct Hz as [Hz _].
      contradiction. }
    cbn [filter] in Heq. cbn [index_in].
    destruct (f h).
    + destruct a as [| a0 a].
      * cbn [app] in Heq. injection Heq as -> Hb.
        rewrite category_eqb_refl.
        rewrite (category_eqb_neq (Hin y ltac:(rewrite Hb; exact Hy))).
        apply Nat.lt_0_succ.
      * cbn [app] in Heq. injection Heq as _ Ht.
        assert (Hx : In x (filter f t)) by (rewrite Ht; apply in_elt).
        assert (Hy' : In y (filter f t)).
        { rewrite Ht. apply in_or_app. right. right. exact Hy. }
        rewrite (category_eqb_neq (Hin x Hx)), (category_eqb_neq (Hin y Hy')).
        apply -> Nat.succ_lt_mono. exact (IH a b x y Ht Hy).
    + assert (Hx : In x (filter f t)) by (rewrite Heq; apply in_elt).
      assert (Hy' : In y (filter f t)).
      { rewrite Heq. apply in_or_app. right. right. exact Hy. }
      rewrite (category_eqb_neq (Hin x Hx)), (category_eqb_neq (Hin y Hy')).
      apply -> Nat.succ_lt_mono. exact (IH a b x y Heq Hy).
Qed.

(** C3, as the code has it.  The table of labels and commands is the one
    the specification gives; the REST client only ever receives the
    command of a requested category; and for a category whose label is in
    the subset, either its command was sent exactly once, or it was not
    sent at all because the query of a category tested before it had
    raised, which ended the invocation with exit status 1.  On success the
    field of the category is bound to the very list its query returned. *)
Theorem requested_category_runs_its_command (p : params) (c : category) :
  In (label c) (gather_subset p) ->
  map (fun c' => (label c', command c')) dispatch_order =
    [("vol", "lsvdisk"); ("pool", "lsmdiskgrp"); ("node", "lsnode");
     ("iog", "lsiogrp"); ("host", "lshost"); ("hc", "lshostcluster");
     ("fc", "lsfabric"); ("targetportfc", "lstargetportfc");
     ("fcport", "lsportfc"); ("iscsiport", "lsportip");
     ("fcmap", "lsfcmap"); ("fcconsistgrp", "lsfcconsistgrp");
     ("vdiskcopy", "lsvdiskcopy"); ("array", "lsarray");
     ("system", "lssystem")] /\
  (forall q, In q (queries (trace (snd (run p)))) ->
             exists c', requested (gather_subset p) c' = true /\
                        fst q = command c') /\
  (count_occ string_dec
             (map fst (queries (trace (snd (run p))))) (command c) = 1 \/
   (count_occ string_dec
              (map fst (queries (trace (snd (run p))))) (command c) = 0 /\
    fst (run p) = SystemExit 1 /\
    exists c' e,
      position c' < position c /\
      In (command c', inl e) (queries (trace (snd (run p)))))) /\
  (fst (run p) = SystemExit 0 ->
   exists recs kw,
     In (command c, inr recs) (queries (trace (snd (run p)))) /\
     count_occ string_dec
               (map fst (queries (trace (snd (run p))))) (command c) = 1 /\
     reports (trace (snd (run p))) = [kw] /\
     lookup (field c) kw = Some recs).
Proof.
  intro Hc. apply requested_listed in Hc.
  split; [reflexivity |]. split; [apply run_query_requested |]. split.
  - rewrite run_commands.
    destruct (in_dec category_eq_dec c (map fst (answers p))) as [Hin | Hout].
    + left. apply NoDup_count_occ'.
      * apply commands_NoDup, answers_NoDup.
      * apply in_map, Hin.
    + right. split.
      { apply count_occ_not_In. intro H. apply in_map_iff in H.
        destruct H as [c' [Heq H]]. apply command_inj in Heq. subst c'.
        contradiction. }
      pose proof (proj2 (plan_requested (gather_subset p) c) Hc) as Hplan.
      destruct (existsb is_failure (answers p)) eqn:Hf.
      * split; [rewrite run_exit; unfold exit_code; rewrite Hf; reflexivity |].
        destruct (answers_failure (run_answers p) Hf)
          as (good & c' & e & later & Hans & _ & _ & Hsplit).
        exists c', e. split.
        -- rewrite Hsplit in Hplan. apply in_app_or in Hplan.
           assert (Hlater : In c later).
           { rewrite Hans, map_app in Hout.
             destruct Hplan as [H | [H | H]].
             - exfalso. apply Hout. apply in_or_app. left; exact H.
             - exfalso. apply Hout. apply in_or_app. right. left; exact H.
             - exact H. }
           exact (index_in_filter (requested (gather_subset p))
                    dispatch_order_NoDup (map fst good) later c' c
                    Hsplit Hlater).
        -- rewrite run_queries, Hans, map_app. apply in_or_app.
           right. left. reflexivity.
      * exfalso. apply Hout.
        destruct (answers_success (run_answers p) Hf) as [-> _].
        exact Hplan.
  - intro Hok. rewrite run_exit in Hok. apply exit_code_success in Hok.
    destruct (success_query p c Hok Hc) as (recs & Hq & Hn & Hl).
    exists recs, (report (gathered (answers p))). repeat split; try assumption.
    rewrite run_reports, Hok. reflexivity.
Qed.

Lemma defaulted_single (c : category) : defaulted [label c] = false.
Proof. destruct c; reflexivity. Qed.

Lemma requested_single (c c' : category) :
  requested [label c] c' = true <-> c' = c.
Proof.
  unfold requested, effective_subset. rewrite defaulted_single, py_in_In.
  simpl. split.
  - intros [H | []]. apply label_inj. symmetry; exact H.
  - intros ->. left; reflexivity.
Qed.

Lemma plan_single (c : category) : plan [label c] = [c].
Proof. destruct c; reflexivity. Qed.

(** C4.  With a subset of one category label, a successful invocation
    sent the one command of that category, its field is bound to the
    records that query returned, and the field of each of the other
    fourteen categories is bound to the empty list. *)
Theorem single_category_fills_one_field (p : params) (c : category) :
  gather_subset p = [label c] ->
  fst (run p) = SystemExit 0 ->
  exists recs kw,
    queries (trace (snd (run p))) = [(command c, inr recs)] /\
    reports (trace (snd (run p))) = [kw] /\
    lookup (field c) kw = Some recs /\
    forall c', c' <> c -> lookup (field c') kw = Some [].
Proof.
  intros Hgs Hok. rewrite run_exit in Hok. apply exit_code_success in Hok.
  pose proof (run_answers p) as Hans. rewrite Hgs, plan_single in Hans.
  destruct (answers_success Hans Hok) as [Hm Hall].
  destruct (answers p) as [| [c0 o] [| a ans]] eqn:E; try discriminate Hm.
  cbn [map fst] in Hm. injection Hm as ->.
  destruct (Hall _ (or_introl eq_refl)) as [recs Ho]. cbn [snd] in Ho; subst o.
  exists recs, (report (gathered [(c, inr recs)])). repeat split.
  - rewrite run_queries, E. reflexivity.
  - rewrite run_reports, E. reflexivity.
  - rewrite lookup_report. unfold gathered, answered. cbn [find fst].
    rewrite category_eqb_refl. reflexivity.
  - intros c' Hne. rewrite lookup_report. f_equal.
    transitivity (gathered (answers p) c'); [rewrite E; reflexivity |].
    apply unrequested_field. rewrite Hgs.
    destruct (requested [label c] c') eqn:R; [| reflexivity].
    apply requested_single in R. contradiction.
Qed.

(** *** The order of the queries *)

(** C7, as the code has it.  The commands reach the REST client one after
    another in the order of the [if] statements of [apply], restricted to
    the requested categories and cut after the first failure; a
    successful invocation sent them all.  For 'all' or an empty subset
    that order is vol, pool, node, iog, host, hc, fc, targetportfc,
    fcport, iscsiport, fcmap, fcconsistgrp, vdiskcopy, array, system:
    target port FC comes eighth, not thirteenth as in the list that
    stands for 'all'. *)
Theorem queries_follow_dispatch_order (p : params) :
  let cmds := map fst (queries (trace (snd (run p)))) in
  let planned :=
    map command (filter (requested (gather_subset p)) dispatch_order) in
  (exists n, cmds = firstn n planned) /\
  (fst (run p) = SystemExit 0 -> cmds = planned) /\
  (gather_subset p = [] \/ In "all" (gather_subset p) ->
   planned =
     ["lsvdisk"; "lsmdiskgrp"; "lsnode"; "lsiogrp"; "lshost";
      "lshostcluster"; "lsfabric"; "lstargetportfc"; "lsportfc";
      "lsportip"; "lsfcmap"; "lsfcconsistgrp"; "lsvdiskcopy";
      "lsarray"; "lssystem"]).
Proof.
  intros cmds planned. subst cmds planned.
  fold (plan (gather_subset p)). rewrite run_commands. repeat split.
  - exists (List.length (answers p)).
    rewrite (answers_prefix (run_answers p)).
    symmetry. apply firstn_map.
  - intro Hok. rewrite run_exit in Hok. apply exit_code_success in Hok.
    destruct (answers_success (run_answers p) Hok) as [-> _]. reflexivity.
  - intro Hd. apply defaulted_iff in Hd.
    rewrite plan_everything; [reflexivity |].
    intro c. apply requested_defaulted, Hd.
Qed.


(** ** Further properties of one invocation *)

(** An invocation ends by exactly one call of [exit_json] or of
    [fail_json]: it is the last event of the trace, nothing before it is
    either of them, and the exit status is 0 for the first, 1 for the
    second. *)
Theorem run_ends_in_one_exit (p : params) :
  exists (before : list event) (last : event),
    trace (snd (run p)) = before ++ [last] /\
    reports before = [] /\
    failures before = [] /\
    ((exists kw, last = EvExitJson kw /\ fst (run p) = SystemExit 0) \/
     (exists m, last = EvFailJson m /\ fst (run p) = SystemExit 1)).
Proof.
  destruct (existsb is_failure (answers p)) eqn:Hf.
  - destruct (run_failed p Hf) as (good & c & e & Hans & Hall & Ht).
    exists ((prologue (gather_subset p) ++
             flat_map (answer_events (clustername p)) good) ++
            [EvQuery (command c) (inl e);
             EvLogError (failure_msg (clustername p) c e)]),
           (EvFailJson (failure_msg (clustername p) c e)).
    split; [rewrite Ht, <- !app_assoc; reflexivity |].
    split; [| split].
    + rewrite !reports_app, reports_answers.
      rewrite (proj1 (proj2 (prologue_quiet _))). reflexivity.
    + rewrite !failures_app, failures_answers, (failures_good _ _ Hall).
      rewrite (proj2 (proj2 (prologue_quiet _))). reflexivity.
    + right. eexists. split; [reflexivity |].
      rewrite run_exit. unfold exit_code. rewrite Hf. reflexivity.
  - exists (prologue (gather_subset p) ++
            flat_map (answer_events (clustername p)) (answers p)),
           (EvExitJson (report (gathered (answers p)))).
    split; [rewrite run_trace; unfold closing; rewrite Hf, app_assoc;
            reflexivity |].
    split; [| split].
    + rewrite reports_app, reports_answers.
      rewrite (proj1 (proj2 (prologue_quiet _))). reflexivity.
    + rewrite failures_app, failures_answers.
      rewrite (failures_good _ _ (proj2 (answers_success (run_answers p) Hf))).
      rewrite (proj2 (proj2 (prologue_quiet _))). reflexivity.
    + left. eexists. split; [reflexivity |].
      rewrite run_exit. unfold exit_code. rewrite Hf. reflexivity.
Qed.

Lemma answers_query_logged (cl : string) (ans : list (category * outcome))
      (tail pre post : list event) (cmd : string) (recs : list record) :
  queries tail = [] ->
  flat_map (answer_events cl) ans ++ tail =
    pre ++ EvQuery cmd (inr recs) :: post ->
  exists c post',
    cmd = command c /\
    post = EvLogInfo (info_fmt c) [PyInt (len recs); PyStr cl] :: post'.
Proof.
  intro Htail. revert pre.
  induction ans as [| [c [e | r]] ans IH]; intros pre H.
  - cbn [flat_map app] in H. rewrite H, queries_app in Htail.
    destruct (queries pre); discriminate Htail.
  - cbn [flat_map answer_events fst snd app] in H.
    destruct pre as [| e1 [| e2 [| e3 pre]]]; try discriminate H.
    cbn [app] in H. injection H as _ _ _ H. exact (IH pre H).
  - cbn [flat_map answer_events fst snd app] in H.
    destruct pre as [| e1 [| e2 pre]]; try discriminate H.
    + cbn [app] in H. injection H as Hc Hr Hp. subst.
      exists c. eexists. split; reflexivity.
    + cbn [app] in H. injection H as _ _ H. exact (IH pre H).
Qed.

(** Every query that returns is followed at once by an info log entry that
    carries the number of records returned and the configured cluster
    name. *)
Theorem successful_query_is_logged
        (p : params) (pre post : list event) (cmd : string)
        (recs : list record) :
  trace (snd (run p)) = pre ++ EvQuery cmd (inr recs) :: post ->
  exists c post',
    cmd = command c /\
    post = EvLogInfo ("Successfully listed %d " ++ listed c ++
                      " from array %s")%string
                     [PyInt (len recs); PyStr (clustername p)] :: post'.
Proof.
  rewrite run_trace. unfold prologue. intro H.
  assert (Hc : queries (closing (answers p)) = []).
  { unfold closing. destruct (existsb is_failure (answers p)); reflexivity. }
  destruct (defaulted (gather_subset p)).
  - destruct pre as [| e1 pre]; [discriminate H |].
    cbn [app] in H. injection H as _ H.
    exact (@answers_query_logged (clustername p) (answers p) _ pre post cmd recs Hc H).
  - cbn [app] in H.
    exact (@answers_query_logged (clustername p) (answers p) _ pre post cmd recs Hc H).
Qed.


Lemma notice_not_in_answers (cl : string) (ans : list (category * outcome)) :
  ~ In default_notice (flat_map (answer_events cl) ans).
Proof.
  intro H. apply in_flat_map in H. destruct H as [[c [e | recs]] [_ H]];
    cbn in H; unfold default_notice in H;
    repeat (destruct H as [H | H]; [discriminate H |]); exact H.
Qed.

Lemma not_defaulted (gs : list string) :
  gs <> [] -> ~ In "all" gs -> defaulted gs = false.
Proof.
  intros Hne Hall. destruct (defaulted gs) eqn:E; [| reflexivity].
  apply defaulted_iff in E. destruct E as [E | E]; contradiction.
Qed.

(** The entry "The default value for gather_subset is all" is logged
    exactly when the subset is empty or holds 'all', and it is then the
    first event of the invocation, ahead of every query. *)
Theorem notice_opens_the_defaulted_run (p : params) :
  (In default_notice (trace (snd (run p))) <->
   gather_subset p = [] \/ In "all" (gather_subset p)) /\
  (gather_subset p = [] \/ In "all" (gather_subset p) ->
   hd_error (trace (snd (run p))) = Some default_notice).
Proof.
  rewrite <- defaulted_iff, run_trace. unfold prologue.
  destruct (defaulted (gather_subset p)).
  - split; [split; [reflexivity | intros _; left; reflexivity] |].
    intros _. reflexivity.
  - split; [| intro H; discriminate H].
    split; [| intro H; discriminate H].
    cbn [app]. intro H. apply in_app_or in H. destruct H as [H | H].
    + destruct (notice_not_in_answers _ _ H).
    + unfold closing in H. destruct (existsb is_failure (answers p)).
      * destruct H.
      * destruct H as [H | []]. discriminate H.
Qed.

(** Asking for 'all' (or for nothing) and listing the fifteen labels
    without 'all' differ by the opening log entry and by nothing else: the
    trace of the first is that entry followed by the trace of the second,
    with the same exit and the same session. *)
Theorem all_adds_only_the_notice (p : params) (gs gs' : list string) :
  gs = [] \/ In "all" gs ->
  (forall c, In (label c) gs') ->
  ~ In "all" gs' ->
  trace (snd (run (set_gather_subset gs p))) =
    default_notice :: trace (snd (run (set_gather_subset gs' p))) /\
  fst (run (set_gather_subset gs p)) = fst (run (set_gather_subset gs' p)) /\
  session (snd (run (set_gather_subset gs p))) =
    session (snd (run (set_gather_subset gs' p))).
Proof.
  intros Hgs Hgs' Hall. apply defaulted_iff in Hgs.
  assert (Hd' : defaulted gs' = false).
  { apply not_defaulted; [| exact Hall].
    intro E. specialize (Hgs' Vol). rewrite E in Hgs'. destruct Hgs'. }
  assert (Hplan : plan gs = plan gs').
  { rewrite !plan_everything; [reflexivity | |].
    - intro c. apply requested_listed, Hgs'.
    - intro c. apply requested_defaulted, Hgs. }
  destruct (run_same_plan p gs gs' Hplan) as [Hans Hses].
  rewrite !run_trace, !run_exit, Hans.
  cbn [gather_subset set_gather_subset clustername].
  unfold prologue. rewrite Hgs, Hd'.
  split; [reflexivity |]. split; [reflexivity | exact Hses].
Qed.

Lemma unknown_not_requested (gs : list string) (c : category) :
  gs <> [] -> ~ In "all" gs -> ~ In (label c) gs -> requested gs c = false.
Proof.
  intros Hne Hall Hc. unfold requested, effective_subset.
  rewrite (not_defaulted Hne Hall).
  destruct (py_in (label c) gs) eqn:E; [| reflexivity].
  apply py_in_In in E. contradiction.
Qed.

(** Whatever the subset, a category that is not requested is left alone:
    its command never reaches the REST client, and a report binds its
    field to the empty list. *)
Theorem unrequested_category_is_left_alone (p : params) (c : category) :
  gather_subset p <> [] ->
  ~ In "all" (gather_subset p) ->
  ~ In (label c) (gather_subset p) ->
  (forall out, ~ In (command c, out) (queries (trace (snd (run p))))) /\
  (forall kw, In kw (reports (trace (snd (run p)))) ->
              lookup (field c) kw = Some []).
Proof.
  intros Hne Hall Hc.
  pose proof (unknown_not_requested c Hne Hall Hc) as Hreq. split.
  - intros out Hin. apply run_query_requested in Hin.
    destruct Hin as [c' [Hr Heq]]. cbn [fst] in Heq.
    apply command_inj in Heq. subst c'. rewrite Hr in Hreq. discriminate Hreq.
  - intros kw Hkw. rewrite run_reports in Hkw.
    destruct (existsb is_failure (answers p)); [destruct Hkw |].
    destruct Hkw as [<- | []].
    rewrite lookup_report, (unrequested_field p c Hreq). reflexivity.
Qed.

(** The catch-all of [main] is never entered: from every world [main] is
    [apply] on the object [__init__] builds, and no invocation logs the
    debug entry of the handler. *)
Theorem handler_of_main_never_runs (p : params) :
  (forall w, main p w = apply (init p) w) /\
  (forall fmt args, ~ In (EvLogDebug fmt args) (trace (snd (run p)))).
Proof.
  split.
  - intro w. unfold main. cbv zeta. unfold try_except.
    rewrite apply_spec. cbv zeta.
    destruct (drive _ (session w)) as [ans s']. reflexivity.
  - intros fmt args H. rewrite run_trace in H.
    apply in_app_or in H. destruct H as [H | H].
    + unfold prologue in H. destruct (defaulted (gather_subset p)).
      * destruct H as [H | []]. discriminate H.
      * destruct H.
    + apply in_app_or in H. destruct H as [H | H].
      * apply in_flat_map in H. destruct H as [[c [e | recs]] [_ H]];
          cbn in H;
          repeat (destruct H as [H | H]; [discriminate H |]); exact H.
      * unfold closing in H. destruct (existsb is_failure (answers p)).
        -- destruct H.
        -- destruct H as [H | []]. discriminate H.
Qed.

Lemma choice_is_label (l : string) :
  In l gather_subset_choices -> l = "all" \/ exists c, l = label c.
Proof.
  unfold gather_subset_choices. cbn [In]. intro H.
  repeat (destruct H as [H | H];
          [subst l;
           first [ left; reflexivity
                 | right;
                   first [ exists Vol; reflexivity | exists Pool; reflexivity
                         | exists Node; reflexivity | exists Iog; reflexivity
                         | exists Host; reflexivity | exists Hc; reflexivity
                         | exists Fc; reflexivity
                         | exists Targetportfc; reflexivity
                         | exists Fcport; reflexivity
                         | exists Iscsiport; reflexivity
                         | exists Fcmap; reflexivity
                         | exists Fcconsistgrp; reflexivity
                         | exists Vdiskcopy; reflexivity
                         | exists Array; reflexivity
                         | exists System; reflexivity ] ] |]).
  destruct H.
Qed.

(** A subset that passes the [choices] of [argument_spec] holds nothing
    that [apply] ignores, every label of a category passes them, and such
    a subset always leads to a query: the trace starts its queries with the
    command of a requested category. *)
Theorem validated_subset_is_dispatched (p : params) :
  (forall l, In l (gather_subset p) -> In l gather_subset_choices) ->
  (forall l, In l (gather_subset p) -> l = "all" \/ exists c, l = label c) /\
  (forall c, In (label c) gather_subset_choices) /\
  exists c out later,
    requested (gather_subset p) c = true /\
    queries (trace (snd (run p))) = (command c, out) :: later.
Proof.
  intro Hval. split; [| split].
  - intros l Hl. apply choice_is_label, Hval, Hl.
  - intro c. destruct c; cbn; tauto.
  - assert (Hreq : exists c, requested (gather_subset p) c = true).
    { destruct (gather_subset p) as [| l gs] eqn:E.
      - exists Vol. reflexivity.
      - destruct (choice_is_label (Hval l (or_introl eq_refl)))
          as [-> | [c ->]].
        + exists Vol. apply requested_defaulted, defaulted_iff.
          right; left; reflexivity.
        + exists c. apply requested_listed. left; reflexivity. }
    destruct Hreq as [c Hc]. apply plan_requested in Hc.
    destruct (plan (gather_subset p)) as [| c0 cs] eqn:Ep; [destruct Hc |].
    assert (Hc0 : requested (gather_subset p) c0 = true).
    { apply plan_requested. rewrite Ep. left; reflexivity. }
    pose proof (run_answers p) as Hans. rewrite Ep in Hans.
    rewrite run_queries.
    inversion Hans as [| c1 cs1 e [Hc1 Hcs1] Ha | c1 cs1 recs ans Hans' [Hc1 Hcs1] Ha].
    + exists c0, (inl e), []. split; [exact Hc0 | reflexivity].
    + exists c0, (inr recs), (map query_of ans).
      split; [exact Hc0 | reflexivity].
Qed.

(** [apply] reads two parameters only, [clustername] and [gather_subset]:
    started in the same world (the same REST session and the same trace so
    far), two objects that agree on these two give the same result and the
    same world.  What the REST client itself does with the parameters it
    was built from is not covered by this. *)
Theorem apply_reads_cluster_and_subset_only
        (self1 self2 : IBMSVCGatherInfo) (w : world) :
  clustername (module_params self1) = clustername (module_params self2) ->
  gather_subset (module_params self1) = gather_subset (module_params self2) ->
  apply self1 w = apply self2 w.
Proof.
  intros Hcl Hgs. rewrite !apply_spec. cbv zeta. rewrite Hcl, Hgs.
  reflexivity.
Qed.

Lemma drive_outcomes (cs : list category) (s : rest) (c : category)
      (o : outcome) :
  In (c, o) (fst (drive cs s)) ->
  exists s1, fst (svc_obj_info s1 (command c)) = o.
Proof.
  revert s; induction cs as [| c0 cs IH]; intro s; cbn [drive].
  - intros [].
  - destruct (svc_obj_info s (command c0)) as [[e | recs] s1] eqn:E.
    + intros [H | []]. inversion H; subst. exists s. rewrite E. reflexivity.
    + specialize (IH s1). destruct (drive cs s1) as [ans s2].
      cbn [fst] in *. intros [H | H].
      * inversion H; subst. exists s. rewrite E. reflexivity.
      * exact (IH H).
Qed.

(** A requested category whose command the REST client always refuses
    makes the whole invocation fail, whatever the other categories would
    have returned: exit status 1 and no report. *)
Theorem refused_category_fails_the_run (p : params) (c : category) :
  gather_subset p = [] \/ In "all" (gather_subset p) \/
  In (label c) (gather_subset p) ->
  (forall s, exists e, fst (svc_obj_info s (command c)) = inl e) ->
  fst (run p) = SystemExit 1 /\ reports (trace (snd (run p))) = [].
Proof.
  intros Hreq Hrefuse.
  assert (Hc : requested (gather_subset p) c = true).
  { destruct Hreq as [H | [H | H]].
    - apply requested_defaulted, defaulted_iff. left; exact H.
    - apply requested_defaulted, defaulted_iff. right; exact H.
    - apply requested_listed, H. }
  rewrite run_exit, run_reports. unfold exit_code.
  destruct (existsb is_failure (answers p)) eqn:Hf; [split; reflexivity |].
  destruct (success_field p c Hf Hc) as [recs [Hin _]].
  apply drive_outcomes in Hin. destruct Hin as [s1 Hs1].
  destruct (Hrefuse s1) as [e He]. rewrite He in Hs1. discriminate Hs1.
Qed.

(** When the REST client answers the command of every requested category
    in every session, the invocation succeeds and has sent the command of
    each requested category, in the order of the tests of [apply]. *)
Theorem answering_client_gives_success (p : params) :
  (forall c, requested (gather_subset p) c = true ->
             forall s, exists recs, fst (svc_obj_info s (command c)) = inr recs) ->
  fst (run p) = SystemExit 0 /\
  map fst (queries (trace (snd (run p)))) =
    map command (filter (requested (gather_subset p)) dispatch_order).
Proof.
  intro Hanswer.
  assert (Hf : existsb is_failure (answers p) = false).
  { destruct (existsb is_failure (answers p)) eqn:Hf; [| reflexivity].
    destruct (answers_failure (run_answers p) Hf)
      as (good & c & e & later & Hans & _ & _ & Hplan).
    assert (Hc : requested (gather_subset p) c = true).
    { apply plan_requested. rewrite Hplan. apply in_or_app.
      right; left; reflexivity. }
    assert (Hin : In (c, inl e) (answers p)).
    { rewrite Hans. apply in_or_app. right; left; reflexivity. }
    apply drive_outcomes in Hin. destruct Hin as [s1 Hs1].
    destruct (Hanswer c Hc s1) as [recs Hr]. rewrite Hr in Hs1.
    discriminate Hs1. }
  split.
  - rewrite run_exit. unfold exit_code. rewrite Hf. reflexivity.
  - rewrite run_commands.
    destruct (answers_success (run_answers p) Hf) as [-> _]. reflexivity.
Qed.


End Module.


(** * The module at work on the sample clients *)

(** C1, at the subset ['all'] against the fifteen labels listed in reverse:
    the invocation succeeds, the reports are the same, and the one report
    binds every field to the records of its query. *)
Lemma all_or_empty_is_every_category_witness :
  let every := ["system"; "array"; "vdiskcopy"; "fcconsistgrp"; "fcmap";
                "iscsiport"; "targetportfc"; "fcport"; "fc"; "hc"; "host";
                "iog"; "node"; "pool"; "vol"] in
  let r := run quiet_connect quiet_api plain_traceback
               (set_gather_subset ["all"] (sample_params [])) in
  let r' := run quiet_connect quiet_api plain_traceback
                (set_gather_subset every (sample_params [])) in
  (["all"] = [] \/ In "all" ["all"]) /\
  (forall c, In (label c) every) /\
  reports (trace (snd r)) = reports (trace (snd r')) /\
  fst r = SystemExit unit 0 /\
  (exists kw,
      reports (trace (snd r)) = [kw] /\
      forall c, exists recs,
        In (command c, inr recs) (queries (trace (snd r))) /\
        lookup (field c) kw = Some recs) /\
  reports (trace (snd r')) =
    [[("Volumes", [7]); ("Pools", [11]); ("Nodes", [8]); ("IOGroup", [10]);
      ("Hosts", [10]); ("HostClusters", [18]); ("FCConnectivity", [14]);
      ("FCConsistgrp", [25]); ("VdiskCopy", [23]); ("FCPorts", [16]);
      ("TargetPortFC", [21]); ("iSCSIPorts", [17]); ("FCMaps", [17]);
      ("Array", [20]); ("System", [22])]].
Proof.
  intros every r r'.
  assert (H1 : ["all"] = [] \/ In "all" ["all"]) by (right; simpl; auto).
  assert (H2 : forall c, In (label c) every) by (intro c; destruct c; simpl; tauto).
  split; [exact H1 |]. split; [exact H2 |].
  destruct (@all_or_empty_is_every_category nat nat
              quiet_connect quiet_api plain_traceback
              (sample_params []) ["all"] every H1 H2)
    as (_ & _ & _ & Hrep & _ & [(Hok & _ & Hkw) | (Hbad & _)]).
  - split; [exact Hrep |]. split; [exact Hok |]. split; [exact Hkw |].
    vm_compute. reflexivity.
  - vm_compute in Hbad. discriminate Hbad.
Defined.

(** C2, at a subset whose second query raises. *)
Lemma failed_query_aborts_witness :
  let r := run quiet_connect broken_api plain_traceback
               (sample_params ["vol"; "node"; "pool"]) in
  In ("lsnode", inl "CMMVC7205E The command failed") (queries (trace (snd r))) /\
  reports (trace (snd r)) = [] /\
  fst r = SystemExit unit 1.
Proof.
  intro r.
  assert (H : In ("lsnode", inl "CMMVC7205E The command failed")
                 (queries (trace (snd r)))) by (vm_compute; auto).
  split; [exact H |].
  destruct (@failed_query_aborts nat nat quiet_connect broken_api plain_traceback
              (sample_params ["vol"; "node"; "pool"]) _ _ H)
    as (before & m & _ & _ & Hr & _ & Hx).
  split; [exact Hr | exact Hx].
Defined.

(** C3, as the specification words it, on the broken client with
    ['node', 'iog']: the label of the I/O groups is in the subset, and
    their command is never sent, because the query of the nodes raised. *)
Lemma requested_category_may_never_be_queried :
  let r := run quiet_connect broken_api plain_traceback
               (sample_params ["node"; "iog"]) in
  In (label Iog) ["node"; "iog"] /\
  fst r = SystemExit unit 1 /\
  map fst (queries (trace (snd r))) = ["lsnode"] /\
  count_occ string_dec (map fst (queries (trace (snd r)))) (command Iog) = 0.
Proof.
  intro r. split; [simpl; auto |]. repeat split.
Qed.

(** C3 as the code has it, for the pools of the subset ['vol', 'pool']. *)
Lemma requested_category_runs_its_command_witness :
  let r := run quiet_connect quiet_api plain_traceback
               (sample_params ["vol"; "pool"]) in
  In (label Pool) ["vol"; "pool"] /\
  count_occ string_dec (map fst (queries (trace (snd r)))) "lsmdiskgrp" = 1 /\
  exists recs kw,
    In (command Pool, inr recs) (queries (trace (snd r))) /\
    count_occ string_dec
              (map fst (queries (trace (snd r)))) (command Pool) = 1 /\
    reports (trace (snd r)) = [kw] /\
    lookup (field Pool) kw = Some recs.
Proof.
  intro r.
  assert (H : In (label Pool) ["vol"; "pool"]) by (simpl; auto).
  split; [exact H |].
  destruct (@requested_category_runs_its_command nat nat
              quiet_connect quiet_api plain_traceback
              (sample_params ["vol"; "pool"]) Pool H)
    as (_ & _ & [Hone | (_ & Hbad & _)] & Hfield).
  - split; [exact Hone |]. exact (Hfield eq_refl).
  - vm_compute in Hbad. discriminate Hbad.
Defined.

(** C4, for the subset ['node']. *)
Lemma single_category_fills_one_field_witness :
  let r := run quiet_connect quiet_api plain_traceback
               (sample_params ["node"]) in
  fst r = SystemExit unit 0 /\
  exists recs kw,
    queries (trace (snd r)) = [(command Node, inr recs)] /\
    reports (trace (snd r)) = [kw] /\
    lookup (field Node) kw = Some recs /\
    forall c', c' <> Node -> lookup (field c') kw = Some [].
Proof.
  intro r.
  assert (H : fst r = SystemExit unit 0) by reflexivity.
  split; [exact H |].
  exact (@single_category_fills_one_field nat nat
           quiet_connect quiet_api plain_traceback
           (sample_params ["node"]) Node eq_refl H).
Defined.

(** C5, for the nodes, whose query raises on the broken client. *)
Lemma failure_message_witness :
  let r := run quiet_connect broken_api plain_traceback (sample_params ["all"]) in
  In (command Node, inl "CMMVC7205E The command failed")
     (queries (trace (snd r))) /\
  failures (trace (snd r)) =
    [PyTuple [PyStr "Get Nodes from array %s failed with error %s ";
              PyStr "cluster1.example";
              PyStr "CMMVC7205E The command failed"]].
Proof.
  intro r.
  assert (H : In (command Node, inl "CMMVC7205E The command failed")
                 (queries (trace (snd r)))) by (vm_compute; auto).
  split; [exact H |].
  exact (proj1 (@failure_message_names_category_error_and_system nat nat
                  quiet_connect broken_api plain_traceback
                  (sample_params ["all"]) Node _ H)).
Defined.

(** C6, for the subset ['host', 'hc']. *)
Lemma report_has_the_fifteen_fields_witness :
  let r := run quiet_connect quiet_api plain_traceback
               (sample_params ["host"; "hc"]) in
  fst r = SystemExit unit 0 /\
  exists kw : list (string * list nat),
    reports (trace (snd r)) = [kw] /\
    map fst kw =
      ["Volumes"; "Pools"; "Nodes"; "IOGroup"; "Hosts"; "HostClusters";
       "FCConnectivity"; "FCConsistgrp"; "VdiskCopy"; "FCPorts";
       "TargetPortFC"; "iSCSIPorts"; "FCMaps"; "Array"; "System"] /\
    failures (trace (snd r)) = [].
Proof.
  intro r.
  assert (H : fst r = SystemExit unit 0) by reflexivity.
  split; [exact H |].
  exact (@report_has_the_fifteen_fields nat nat
           quiet_connect quiet_api plain_traceback
           (sample_params ["host"; "hc"]) H).
Defined.

(** C7, as the specification words it, on the quiet client with ['all']: the
    invocation succeeds and its commands are not those of the list that
    stands for 'all', taken in that list's order. *)
Lemma all_is_not_queried_in_expansion_order :
  let r := run quiet_connect quiet_api plain_traceback (sample_params ["all"]) in
  fst r = SystemExit unit 0 /\
  map label expansion_order =
    ["vol"; "pool"; "node"; "iog"; "host"; "hc"; "fc"; "fcport"; "iscsiport";
     "fcmap"; "fcconsistgrp"; "vdiskcopy"; "targetportfc"; "array"; "system"] /\
  nth 7 (map fst (queries (trace (snd r)))) "" = "lstargetportfc" /\
  nth 7 (map command expansion_order) "" = "lsportfc" /\
  map fst (queries (trace (snd r))) <> map command expansion_order.
Proof.
  intro r. repeat split.
  intro H. apply (f_equal (fun l => nth 7 l "")) in H.
  vm_compute in H. discriminate H.
Qed.

(** C7 as the code has it, on the quiet client with ['all']. *)
Lemma queries_follow_dispatch_order_witness :
  let r := run quiet_connect quiet_api plain_traceback (sample_params ["all"]) in
  fst r = SystemExit unit 0 /\
  (["all"] = [] \/ In "all" ["all"]) /\
  map fst (queries (trace (snd r))) =
    ["lsvdisk"; "lsmdiskgrp"; "lsnode"; "lsiogrp"; "lshost";
     "lshostcluster"; "lsfabric"; "lstargetportfc"; "lsportfc";
     "lsportip"; "lsfcmap"; "lsfcconsistgrp"; "lsvdiskcopy";
     "lsarray"; "lssystem"].
Proof.
  intro r.
  assert (H : fst r = SystemExit unit 0) by reflexivity.
  assert (Ha : ["all"] = [] \/ In "all" ["all"]) by (right; simpl; auto).
  split; [exact H |]. split; [exact Ha |].
  destruct (@queries_follow_dispatch_order nat nat
              quiet_connect quiet_api plain_traceback (sample_params ["all"]))
    as (_ & Hall & Horder).
  exact (eq_trans (Hall H) (Horder Ha)).
Defined.

(** C10, as the specification words it: two invocations on the quiet
    client that differ in [state] only, one with 'info' and one with
    'present'.  The first succeeds with a report; the second is rejected
    when the module is built, with exit status 1 and no report. *)
Lemma state_outside_choices_is_rejected :
  let p := sample_params ["vol"] in
  let q := set_name_state (name p) "present" p in
  let out := invoke quiet_connect quiet_api plain_traceback plain_invalid in
  fst (fst (out p)) = SystemExit unit 0 /\
  fst (fst (out q)) = SystemExit unit 1 /\
  reports (snd (fst (out p))) = [[("Volumes", [7]); ("Pools", []);
      ("Nodes", []); ("IOGroup", []); ("Hosts", []); ("HostClusters", []);
      ("FCConnectivity", []); ("FCConsistgrp", []); ("VdiskCopy", []);
      ("FCPorts", []); ("TargetPortFC", []); ("iSCSIPorts", []);
      ("FCMaps", []); ("Array", []); ("System", [])]] /\
  reports (snd (fst (out q))) = [] /\
  out p <> out q.
Proof.
  intros p q out. repeat split.
  intro H. apply (f_equal (fun x => fst (fst x))) in H.
  vm_compute in H. discriminate H.
Qed.

(** C10 as the code has it, for another name and the state 'info'. *)
Lemma name_and_accepted_state_are_ignored_witness :
  let p := sample_params ["vol"; "pool"] in
  accepted p = true /\
  In "info" state_choices /\
  invoke quiet_connect quiet_api plain_traceback plain_invalid
         (set_name_state "inventory" "info" p) =
  invoke quiet_connect quiet_api plain_traceback plain_invalid p.
Proof.
  intro p.
  assert (H1 : accepted p = true) by reflexivity.
  assert (H2 : In "info" state_choices) by (simpl; auto).
  split; [exact H1 |]. split; [exact H2 |].
  exact (proj2 (proj2
           (@name_and_accepted_state_are_ignored nat nat
              quiet_connect quiet_api plain_traceback plain_invalid
              p "inventory" "info" H1 H2))).
Defined.

(** C9, for two orders of the same labels, one with a repetition. *)
Lemma outcome_depends_on_label_set_witness :
  (forall l, In l ["vol"; "pool"] <-> In l ["pool"; "vol"; "vol"]) /\
  run quiet_connect quiet_api plain_traceback
      (set_gather_subset ["vol"; "pool"] (sample_params [])) =
  run quiet_connect quiet_api plain_traceback
      (set_gather_subset ["pool"; "vol"; "vol"] (sample_params [])).
Proof.
  assert (H : forall l, In l ["vol"; "pool"] <-> In l ["pool"; "vol"; "vol"])
    by (intro l; simpl; tauto).
  split; [exact H |].
  exact (@outcome_depends_on_label_set nat nat
           quiet_connect quiet_api plain_traceback
           (sample_params []) ["vol"; "pool"] ["pool"; "vol"; "vol"]
           (or_introl H)).
Defined.

(** ** The further properties on the sample clients *)

(** The query of the subset ['vol'] and the log entry after it. *)
Lemma successful_query_is_logged_witness :
  let r := run quiet_connect quiet_api plain_traceback (sample_params ["vol"]) in
  trace (snd r) = [] ++ EvQuery "lsvdisk" (inr [7]) :: tl (trace (snd r)) /\
  exists c post',
    "lsvdisk" = command c /\
    tl (trace (snd r)) =
      EvLogInfo nat ("Successfully listed %d " ++ listed c ++
                     " from array %s")%string
                [PyInt (len [7]); PyStr "cluster1.example"] :: post'.
Proof.
  intro r.
  assert (H : trace (snd r) =
              [] ++ EvQuery "lsvdisk" (inr [7]) :: tl (trace (snd r)))
    by reflexivity.
  split; [exact H |].
  exact (@successful_query_is_logged nat nat quiet_connect quiet_api
           plain_traceback (sample_params ["vol"]) []
           (tl (trace (snd r))) "lsvdisk" [7] H).
Defined.

(** ['all'] against the fifteen labels. *)
Lemma all_adds_only_the_notice_witness :
  let every := ["vol"; "pool"; "node"; "iog"; "host"; "hc"; "fc"; "fcport";
                "iscsiport"; "fcmap"; "fcconsistgrp"; "vdiskcopy";
                "targetportfc"; "array"; "system"] in
  (["all"] = [] \/ In "all" ["all"]) /\
  (forall c, In (label c) every) /\
  ~ In "all" every /\
  trace (snd (run quiet_connect quiet_api plain_traceback
                  (set_gather_subset ["all"] (sample_params [])))) =
  default_notice nat ::
  trace (snd (run quiet_connect quiet_api plain_traceback
                  (set_gather_subset every (sample_params [])))).
Proof.
  intro every.
  assert (H1 : ["all"] = [] \/ In "all" ["all"]) by (right; simpl; auto).
  assert (H2 : forall c, In (label c) every)
    by (intro c; destruct c; simpl; tauto).
  assert (H3 : ~ In "all" every)
    by (simpl; intro H; repeat (destruct H as [H | H]; [discriminate H |]);
        exact H).
  split; [exact H1 |]. split; [exact H2 |]. split; [exact H3 |].
  exact (proj1 (@all_adds_only_the_notice nat nat quiet_connect quiet_api
                  plain_traceback (sample_params []) ["all"] every
                  H1 H2 H3)).
Defined.

(** The hosts, for the subset ['vol', 'pool']. *)
Lemma unrequested_category_is_left_alone_witness :
  ["vol"; "pool"] <> [] /\
  ~ In "all" ["vol"; "pool"] /\
  ~ In (label Host) ["vol"; "pool"] /\
  forall kw,
    In kw (reports (trace (snd (run quiet_connect quiet_api plain_traceback
                                    (sample_params ["vol"; "pool"]))))) ->
    lookup (field Host) kw = Some [].
Proof.
  assert (H1 : ["vol"; "pool"] <> []) by discriminate.
  assert (H2 : ~ In "all" ["vol"; "pool"])
    by (simpl; intro H; repeat (destruct H as [H | H]; [discriminate H |]);
        exact H).
  assert (H3 : ~ In (label Host) ["vol"; "pool"])
    by (simpl; intro H; repeat (destruct H as [H | H]; [discriminate H |]);
        exact H).
  split; [exact H1 |]. split; [exact H2 |]. split; [exact H3 |].
  exact (proj2 (@unrequested_category_is_left_alone nat nat quiet_connect
                  quiet_api plain_traceback (sample_params ["vol"; "pool"])
                  Host H1 H2 H3)).
Defined.

(** The default of [argument_spec]. *)
Lemma validated_subset_is_dispatched_witness :
  (forall l, In l gather_subset_default -> In l gather_subset_choices) /\
  exists c out later,
    requested gather_subset_default c = true /\
    queries (trace (snd (run quiet_connect quiet_api plain_traceback
                             (sample_params gather_subset_default)))) =
      (command c, out) :: later.
Proof.
  assert (H : forall l, In l gather_subset_default ->
                        In l gather_subset_choices).
  { intros l [<- | []]. unfold gather_subset_choices. simpl. tauto. }
  split; [exact H |].
  exact (proj2 (proj2
           (@validated_subset_is_dispatched nat nat quiet_connect quiet_api
              plain_traceback (sample_params gather_subset_default) H))).
Defined.

(** Two objects that differ in everything but cluster name and subset. *)
Lemma apply_reads_cluster_and_subset_only_witness :
  let self1 := mkSelf (mkParams "first" "info" "cluster1.example" None
                                "superuser" "passw0rd" None false ["node"])
                      "first" in
  let self2 := mkSelf (mkParams "second" "info" "cluster1.example"
                                (Some "example") "monitor" "s3cret"
                                (Some "/tmp/ansible.log") true ["node"])
                      "second" in
  apply quiet_api self1 (mkWorld 0 []) = apply quiet_api self2 (mkWorld 0 []).
Proof.
  intros self1 self2.
  exact (@apply_reads_cluster_and_subset_only nat nat quiet_api
           self1 self2 (mkWorld 0 []) eq_refl eq_refl).
Defined.

(** The nodes on the broken client, with the default subset. *)
Lemma refused_category_fails_the_run_witness :
  (["all"] = [] \/ In "all" ["all"] \/ In (label Node) ["all"]) /\
  (forall s, exists e, fst (broken_api s (command Node)) = inl e) /\
  fst (run quiet_connect broken_api plain_traceback (sample_params ["all"]))
  = SystemExit unit 1.
Proof.
  assert (H1 : ["all"] = [] \/ In "all" ["all"] \/ In (label Node) ["all"])
    by (right; left; simpl; auto).
  assert (H2 : forall s, exists e, fst (broken_api s (command Node)) = inl e)
    by (intro s; eexists; reflexivity).
  split; [exact H1 |]. split; [exact H2 |].
  exact (proj1 (@refused_category_fails_the_run nat nat quiet_connect
                  broken_api plain_traceback (sample_params ["all"]) Node
                  H1 H2)).
Defined.

(** The quiet client answers every command. *)
Lemma answering_client_gives_success_witness :
  (forall c, requested ["fc"; "fcport"] c = true ->
             forall s, exists recs, fst (quiet_api s (command c)) = inr recs) /\
  fst (run quiet_connect quiet_api plain_traceback
           (sample_params ["fc"; "fcport"])) = SystemExit unit 0.
Proof.
  assert (H : forall c, requested ["fc"; "fcport"] c = true ->
                        forall s, exists recs,
                            fst (quiet_api s (command c)) = inr recs)
    by (intros c _ s; eexists; reflexivity).
  split; [exact H |].
  exact (proj1 (@answering_client_gives_success nat nat quiet_connect
                  quiet_api plain_traceback (sample_params ["fc"; "fcport"])
                  H)).
Defined.
